(** * Star Sync Tool: a shallow embedding of [dev/scripts/update-stars.js]

    The script reads one [project.json] per sub-directory of [projects/],
    asks the hosting service for star counts in batches of fifty and rewrites
    the descriptors whose count changed.

    The embedding follows the script function by function.  JavaScript values
    are a small inductive type, exceptions and [process.exit] are outcomes of
    a state-and-exception monad whose state survives a throw (what was
    written before an exception stays written), and the outside world
    (directory listing, network, [JSON.parse]) is a parameter. *)

From Stdlib Require Import ZArith Ascii String List Lia Sorted Permutation.
From stdpp Require Import base option list strings pretty gmap sorting.

Open Scope string_scope.
Open Scope list_scope.
Open Scope nat_scope.

Set Warnings "-register-all".

(** ** JavaScript values *)

(** The values the script handles: what [JSON.parse] produces, plus
    [undefined].  Numbers are the integers (star counts, and whatever other
    integral fields a descriptor holds); fractional numbers are outside the
    model.  An object is the list of its own properties in property order. *)
Inductive jsval : Type :=
| JUndefined
| JNull
| JBool (b : bool)
| JNum (n : Z)
| JStr (s : string)
| JArr (items : list jsval)
| JObj (members : list (string * jsval)).

Definition nullish (v : jsval) : bool :=
  match v with JUndefined | JNull => true | _ => false end.

(** ToBoolean, as used by [if (result.errors)]. *)
Definition truthy (v : jsval) : bool :=
  match v with
  | JUndefined | JNull => false
  | JBool b => b
  | JNum n => negb (n =? 0)%Z
  | JStr s => negb (String.eqb s "")
  | JArr _ | JObj _ => true
  end.

(** [a === b].  Arrays and objects compare by identity; the two sides of the
    script's only comparison come from two different [JSON.parse] calls (the
    descriptor file and the service response), so they are never the same
    object. *)
Definition strict_eq (a b : jsval) : bool :=
  match a, b with
  | JUndefined, JUndefined => true
  | JNull, JNull => true
  | JBool x, JBool y => Bool.eqb x y
  | JNum x, JNum y => (x =? y)%Z
  | JStr x, JStr y => String.eqb x y
  | _, _ => false
  end.

Definition strict_neq (a b : jsval) : bool := negb (strict_eq a b).

Fixpoint assoc (k : string) (m : list (string * jsval)) : option jsval :=
  match m with
  | [] => None
  | (k', v) :: m' => if String.eqb k k' then Some v else assoc k m'
  end.

(** [base[key]] for a base that is neither [null] nor [undefined].  The keys
    the script reads ([github_repo], [stars], [errors], [data], [repoN],
    [stargazerCount]) are not array indices, not [length] and not inherited,
    so only an object can have them. *)
Definition get_member (base : jsval) (key : string) : jsval :=
  match base with
  | JObj m => default JUndefined (assoc key m)
  | _ => JUndefined
  end.

(** [base?.[key]] *)
Definition opt_member (base : jsval) (key : string) : jsval :=
  if nullish base then JUndefined else get_member base key.

(** [v ?? d] *)
Definition nullish_coalesce (v d : jsval) : jsval :=
  if nullish v then d else v.

Fixpoint assoc_set (k : string) (v : jsval) (m : list (string * jsval))
  : list (string * jsval) :=
  match m with
  | [] => [(k, v)]
  | (k', v') :: m' =>
      if String.eqb k k' then (k', v) :: m' else (k', v') :: assoc_set k v m'
  end.

(** [base.key = v] in sloppy mode, for a key that is not an array index: an
    existing property keeps its place, a new one goes last.  On a primitive
    the assignment is dropped; on an array it creates a property that
    [JSON.stringify] does not print and that the script never reads back. *)
Definition set_member (base : jsval) (key : string) (v : jsval) : jsval :=
  match base with
  | JObj m => JObj (assoc_set key v m)
  | _ => base
  end.

(** ** Outcomes *)

Inductive js_error : Type :=
| TypeError
| SyntaxError
| IOError
| FetchFailed
| BodyFailed
| ApiError (status : nat) (errorText : string).

Inductive outcome (A : Type) : Type :=
| Ok (a : A)
| Throw (e : js_error)
| Exit (code : nat)
| OutOfFuel.
Arguments Ok {A} a.
Arguments Throw {A} e.
Arguments Exit {A} code.
Arguments OutOfFuel {A}.

(** [base.key], which throws on [null] and [undefined]. *)
Definition get_prop (base : jsval) (key : string) : outcome jsval :=
  if nullish base then Throw TypeError else Ok (get_member base key).

(** ** Strings *)

Definition nl : string := String "010"%char "".
Definition dquote : string := String "034"%char "".
Definition backslash : string := String "092"%char "".

Fixpoint string_drop (n : nat) (s : string) : string :=
  match n, s with
  | S n', String _ s' => string_drop n' s'
  | _, _ => s
  end.

(** [s.replace(pat, rep)] with a string pattern: the first occurrence only,
    wherever it is. *)
Fixpoint replace (pat rep s : string) : string :=
  if String.prefix pat s then rep +:+ string_drop (String.length pat) s
  else match s with
       | "" => ""
       | String c s' => String c (replace pat rep s')
       end.

(** [s.split(sep)] for a one-character separator. *)
Fixpoint split (sep : ascii) (s : string) : list string :=
  match s with
  | "" => [""]
  | String c s' =>
      if Ascii.eqb c sep then "" :: split sep s'
      else match split sep s' with
           | x :: xs => String c x :: xs
           | [] => [String c ""]
           end
  end.

(** [xs.join(sep)] *)
Definition join (sep : string) (xs : list string) : string := String.concat sep xs.

(** ** The composite query *)

Record repository : Type := mkRepository { slug : string; url : jsval }.

Definition alias (idx : nat) : string := "repo" +:+ pretty idx.

Definition url_parts (u : string) : list string :=
  split "/"%char (replace "https://github.com/" "" u).

Definition query_line (idx : nat) (owner name : string) : string :=
  alias idx +:+ ": repository(owner: " +:+ dquote +:+ owner +:+ dquote
    +:+ ", name: " +:+ dquote +:+ name +:+ dquote +:+ ") { stargazerCount }".

(** The callback of [repositories.map]: [null] for a URL that does not split
    in two.  [repo.url.replace] throws when [url] is not a string. *)
Definition build_query (idx : nat) (repo : repository) : outcome (option string) :=
  match url repo with
  | JStr u =>
      match url_parts u with
      | [owner; name] => Ok (Some (query_line idx owner name))
      | _ => Ok None
      end
  | _ => Throw TypeError
  end.

Fixpoint map_queries (idx : nat) (repos : list repository)
  : outcome (list (option string)) :=
  match repos with
  | [] => Ok []
  | repo :: rest =>
      match build_query idx repo with
      | Ok q =>
          match map_queries (S idx) rest with
          | Ok qs => Ok (q :: qs)
          | Throw e => Throw e
          | Exit c => Exit c
          | OutOfFuel => OutOfFuel
          end
      | Throw e => Throw e
      | Exit c => Exit c
      | OutOfFuel => OutOfFuel
      end
  end.

(** [.filter(Boolean)]: every line built is a non-empty string, so only the
    [null]s go. *)
Definition filter_Boolean (qs : list (option string)) : list string := omap id qs.

Definition composite_query (queries : list string) : string :=
  nl +:+ "    query {" +:+ nl +:+ "      "
     +:+ join (nl +:+ "      ") queries +:+ nl +:+ "    }" +:+ nl +:+ "  ".

(** ** [JSON.stringify(value, null, 2)] *)

Definition gap : string := "  ".

Definition hex_digit (n : nat) : ascii :=
  match n with
  | 0 => "0" | 1 => "1" | 2 => "2" | 3 => "3" | 4 => "4" | 5 => "5" | 6 => "6"
  | 7 => "7" | 8 => "8" | 9 => "9" | 10 => "a" | 11 => "b" | 12 => "c"
  | 13 => "d" | 14 => "e" | _ => "f"
  end%char.

(** One character of QuoteJSONString.  Strings are sequences of UTF-8 bytes;
    bytes from 128 up belong to characters that are printed as they are. *)
Definition escape_char (c : ascii) : string :=
  let n := nat_of_ascii c in
  if n =? 8 then backslash +:+ "b"
  else if n =? 9 then backslash +:+ "t"
  else if n =? 10 then backslash +:+ "n"
  else if n =? 12 then backslash +:+ "f"
  else if n =? 13 then backslash +:+ "r"
  else if n =? 34 then backslash +:+ dquote
  else if n =? 92 then backslash +:+ backslash
  else if n <? 32 then
    backslash +:+ "u00"
      +:+ String (hex_digit (n / 16)) (String (hex_digit (n mod 16)) "")
  else String c "".

Fixpoint escape_string (s : string) : string :=
  match s with
  | "" => ""
  | String c s' => escape_char c +:+ escape_string s'
  end.

Definition QuoteJSONString (s : string) : string :=
  dquote +:+ escape_string s +:+ dquote.

Definition wrap_block (open close stepback indent : string) (partial : list string)
  : string :=
  match partial with
  | [] => open +:+ close
  | _ => open +:+ nl +:+ indent
           +:+ join ("," +:+ nl +:+ indent) partial
           +:+ nl +:+ stepback +:+ close
  end.

(** SerializeJSONProperty with the two-space gap: [None] is the
    [undefined] result.  A property whose value serializes to [undefined] is
    left out of an object and printed as [null] in an array. *)
Fixpoint SerializeJSONProperty (indent : string) (v : jsval) : option string :=
  match v with
  | JUndefined => None
  | JNull => Some "null"
  | JBool b => Some (if b then "true" else "false")
  | JNum n => Some (pretty n)
  | JStr s => Some (QuoteJSONString s)
  | JArr items =>
      let indent' := indent +:+ gap in
      let partial :=
        (fix each (l : list jsval) : list string :=
           match l with
           | [] => []
           | x :: l' => default "null" (SerializeJSONProperty indent' x) :: each l'
           end) items in
      Some (wrap_block "[" "]" indent indent' partial)
  | JObj members =>
      let indent' := indent +:+ gap in
      let partial :=
        (fix each (l : list (string * jsval)) : list string :=
           match l with
           | [] => []
           | (k, x) :: l' =>
               match SerializeJSONProperty indent' x with
               | Some str => (QuoteJSONString k +:+ ": " +:+ str) :: each l'
               | None => each l'
               end
           end) members in
      Some (wrap_block "{" "}" indent indent' partial)
  end.

Definition JSON_stringify (v : jsval) : option string := SerializeJSONProperty "" v.

(** [JSON.stringify(data, null, 2) + "\n"]: string concatenation turns an
    [undefined] left operand into the text "undefined". *)
Definition file_text (data : jsval) : string :=
  default "undefined" (JSON_stringify data) +:+ nl.

(** ** The world the script runs in *)

Record request : Type := mkRequest { authorization : string; body_query : string }.

(** What [fetch] does with one POST: the promise rejects (transport
    failure), or resolves to a response with its [ok] flag and status, the
    result of [response.text()] and the result of [response.json()]
    ([None] when that promise rejects). *)
Inductive fetch_outcome : Type :=
| FetchRejected
| FetchResolved (ok : bool) (status : nat) (text : option string) (json : option jsval).

Record environment : Type := mkEnvironment {
  GITHUB_TOKEN : option string;                  (* process.env.GITHUB_TOKEN *)
  ROOT : string;
  readdirSync : string -> option (list string);  (* None: it throws *)
  isDirectory : string -> option bool;           (* statSync(p).isDirectory() *)
  service : nat -> request -> fetch_outcome;     (* answer to the n-th POST *)
  JSON_parse : string -> option jsval            (* None: SyntaxError *)
}.

Record project : Type := mkProject { folder : string; path : string; data : jsval }.

Inductive log_line : Type :=
| LogTokenRequired
| LogCouldNotReadDir
| LogUpdating (count : nat)
| LogCouldNotReadJson (folder : string)
| LogFetching (number : nat)
| LogGraphQLErrors (errors : jsval)
| LogStars (folder : string) (stars : jsval)
| LogNoChange (folder : string) (stars : jsval)
| LogBatchFailed (e : js_error)
| LogUpdated (total : nat)
| LogUncaught (e : js_error).

(** What a run does, in order.  [EvCall] marks a call of [fetchStarCounts]
    with its argument. *)
Inductive event : Type :=
| EvLog (l : log_line)
| EvCall (repositories : list repository)
| EvPost (r : request)
| EvWrite (path content : string)
| EvSleep (ms : nat).

(** The disk (path to text), the two variables of [main] that the loops
    update, and the trace.  The records in [projects] are the objects that [batch] shares
    with it: [data.stars = stars] on [batch[j]] is an update of
    [projects[i + j]]. *)
Record state : Type := mkState {
  files : gmap string string;
  projects : list project;
  totalUpdated : nat;
  trace : list event
}.

Definition M (A : Type) : Type := state -> state * outcome A.

Definition ret {A} (a : A) : M A := fun st => (st, Ok a).

Definition bind {A B} (m : M A) (k : A -> M B) : M B :=
  fun st =>
    match m st with
    | (st', Ok a) => k a st'
    | (st', Throw e) => (st', Throw e)
    | (st', Exit c) => (st', Exit c)
    | (st', OutOfFuel) => (st', OutOfFuel)
    end.

Definition lift {A} (o : outcome A) : M A := fun st => (st, o).
Definition throw {A} (e : js_error) : M A := lift (Throw e).
Definition process_exit {A} (code : nat) : M A := lift (Exit code).

(** [try { body } catch (e) { handler }]: only a throw is caught. *)
Definition try_catch {A} (body : M A) (handler : js_error -> M A) : M A :=
  fun st =>
    match body st with
    | (st', Throw e) => handler e st'
    | r => r
    end.

Definition gets {A} (f : state -> A) : M A := fun st => (st, Ok (f st)).
Definition modify (f : state -> state) : M unit := fun st => (f st, Ok tt).

Notation "'let*' x ':=' m 'in' k" := (bind m (fun x => k))
  (at level 10, x name, m at level 100, k at level 200).
Notation "m ;; k" := (bind m (fun _ => k))
  (at level 100, k at level 200, right associativity).

Definition emit (e : event) : M unit :=
  modify (fun st => mkState (files st) (projects st) (totalUpdated st) (trace st ++ [e])).

Definition set_projects (ps : list project) : M unit :=
  modify (fun st => mkState (files st) ps (totalUpdated st) (trace st)).

Definition set_totalUpdated (n : nat) : M unit :=
  modify (fun st => mkState (files st) (projects st) n (trace st)).

(** [writeFileSync(path, content)] on a path the run has read from; the
    disk of the model accepts every write. *)
Definition writeFileSync (p content : string) : M unit :=
  modify (fun st =>
    mkState (<[p := content]> (files st)) (projects st) (totalUpdated st)
            (trace st ++ [EvWrite p content])).

Definition readFileSync (p : string) : M string :=
  fun st => match files st !! p with
            | Some raw => (st, Ok raw)
            | None => (st, Throw IOError)
            end.

Definition is_post (e : event) : bool :=
  match e with EvPost _ => true | _ => false end.

Definition count_posts (tr : list event) : nat := length (filter is_post tr).

(** ** Sorting, slicing, paths *)

(** [folders.sort()] with the default comparison: ascending by code unit.
    Strings are byte sequences here, and comparing bytes gives the order of
    the code units for names without characters outside the Basic
    Multilingual Plane.  Two names that compare equal are the same name, so
    the order of the result does not depend on the sorting algorithm. *)
Fixpoint insert_sorted (x : string) (l : list string) : list string :=
  match l with
  | [] => [x]
  | y :: l' => if String.leb x y then x :: l else y :: insert_sorted x l'
  end.

Definition sort (l : list string) : list string := foldr insert_sorted [] l.

(** [xs.slice(b, e)] for [b <= e]. *)
Definition slice {A} (b e : nat) (xs : list A) : list A := take (e - b) (drop b xs).

(** [join(a, b)] for a name [b] that [readdirSync] returned (no separator
    in it, not a dot entry). *)
Definition path_join (a b : string) : string := a +:+ "/" +:+ b.

Definition BATCH_SIZE : nat := 50.

Section Script.

Variable env : environment.

(** ** [fetchStarCounts] *)

Definition fetch (req : request) : M fetch_outcome :=
  fun st =>
    (mkState (files st) (projects st) (totalUpdated st) (trace st ++ [EvPost req]),
     Ok (service env (count_posts (trace st)) req)).

(** [result.data?.[`repo${i}`]?.stargazerCount ?? 0] *)
Definition star_at (result : jsval) (i : nat) : M jsval :=
  let* d := lift (get_prop result "data") in
  let repoData := opt_member d (alias i) in
  ret (nullish_coalesce (opt_member repoData "stargazerCount") (JNum 0)).

(** [for (let i = ...; i < repositories.length; i++) starCounts.push(...)],
    with [remaining] iterations to go. *)
Fixpoint extract_loop (result : jsval) (remaining i : nat) (starCounts : list jsval)
  : M (list jsval) :=
  match remaining with
  | 0 => ret starCounts
  | S r =>
      let* v := star_at result i in
      extract_loop result r (S i) (starCounts ++ [v])
  end.

Definition bearer : string :=
  "Bearer " +:+ default "undefined" (GITHUB_TOKEN env).

Definition fetchStarCounts (repositories : list repository) : M (list jsval) :=
  let* mapped := lift (map_queries 0 repositories) in
  let queries := filter_Boolean mapped in
  if length queries =? 0 then ret []
  else
    let query := composite_query queries in
    let* response := fetch (mkRequest bearer query) in
    match response with
    | FetchRejected => throw FetchFailed
    | FetchResolved ok status text json =>
        if negb ok then
          match text with
          | Some errorText => throw (ApiError status errorText)
          | None => throw BodyFailed
          end
        else
          match json with
          | None => throw BodyFailed
          | Some result =>
              let* errors := lift (get_prop result "errors") in
              (if truthy errors then emit (EvLog (LogGraphQLErrors errors)) else ret tt);;
              extract_loop result (length repositories) 0 []
          end
    end.

(** ** [main] *)

(** [readdirSync(dir).filter(name => statSync(join(dir, name)).isDirectory())] *)
Fixpoint filter_directories (dir : string) (names : list string) : outcome (list string) :=
  match names with
  | [] => Ok []
  | name :: rest =>
      match isDirectory env (path_join dir name) with
      | None => Throw IOError
      | Some d =>
          match filter_directories dir rest with
          | Ok ds => Ok (if d then name :: ds else ds)
          | other => other
          end
      end
  end.

Definition scan (dir : string) : outcome (list string) :=
  match readdirSync env dir with
  | None => Throw IOError
  | Some names => filter_directories dir names
  end.

Definition json_path (projectsDir folder : string) : string :=
  path_join (path_join projectsDir folder) "project.json".

Definition parse (raw : string) : M jsval :=
  match JSON_parse env raw with
  | Some v => ret v
  | None => throw SyntaxError
  end.

Definition push_project (p : project) : M unit :=
  let* ps := gets projects in set_projects (ps ++ [p]).

(** [for (const folder of folders.sort()) { try { ... } catch (e) { ... } }] *)
Fixpoint load_projects (projectsDir : string) (folders : list string) : M unit :=
  match folders with
  | [] => ret tt
  | folder :: rest =>
      let jsonPath := json_path projectsDir folder in
      try_catch
        (let* raw := readFileSync jsonPath in
         let* project := parse raw in
         push_project (mkProject folder jsonPath project))
        (fun _ => emit (EvLog (LogCouldNotReadJson folder)));;
      load_projects projectsDir rest
  end.

(** [batch.map(p => ({ slug: p.folder, url: p.data.github_repo }))] *)
Fixpoint map_repositories (batch : list project) : M (list repository) :=
  match batch with
  | [] => ret []
  | p :: rest =>
      let* u := lift (get_prop (data p) "github_repo") in
      let* rs := map_repositories rest in
      ret (mkRepository (folder p) u :: rs)
  end.

Definition set_data (k : nat) (d : jsval) : M unit :=
  let* ps := gets projects in
  match ps !! k with
  | Some p => set_projects (<[k := mkProject (folder p) (path p) d]> ps)
  | None => ret tt
  end.

(** The body of [for (let j = 0; j < batch.length; j++)], for the batch
    that starts at index [i] of [projects]. *)
Definition update_one (i : nat) (starCounts : list jsval) (j : nat) : M unit :=
  let* ps := gets projects in
  match ps !! (i + j) with
  | None => throw TypeError
  | Some p =>
      let stars := default JUndefined (starCounts !! j) in
      let* stored := lift (get_prop (data p) "stars") in
      if strict_neq stored stars then
        let data' := set_member (data p) "stars" stars in
        set_data (i + j) data';;
        writeFileSync (path p) (file_text data');;
        emit (EvLog (LogStars (folder p) stars));;
        let* n := gets totalUpdated in
        set_totalUpdated (S n)
      else
        emit (EvLog (LogNoChange (folder p) stars))
  end.

Fixpoint update_loop (i : nat) (starCounts : list jsval) (remaining j : nat) : M unit :=
  match remaining with
  | 0 => ret tt
  | S r => update_one i starCounts j;; update_loop i starCounts r (S j)
  end.

(** One turn of [for (let i = 0; i < projects.length; i += BATCH_SIZE)]. *)
Definition batch_turn (i : nat) : M unit :=
  let* batch := gets (fun st => slice i (i + BATCH_SIZE) (projects st)) in
  emit (EvLog (LogFetching (i / BATCH_SIZE + 1)));;
  let* repositories := map_repositories batch in
  try_catch
    (emit (EvCall repositories);;
     let* starCounts := fetchStarCounts repositories in
     update_loop i starCounts (length batch) 0)
    (fun e => emit (EvLog (LogBatchFailed e)));;
  let* len := gets (fun st => length (projects st)) in
  if i + BATCH_SIZE <? len then emit (EvSleep 1000) else ret tt.

Fixpoint main_loop (fuel i : nat) : M unit :=
  let* len := gets (fun st => length (projects st)) in
  if i <? len then
    match fuel with
    | 0 => lift OutOfFuel
    | S fuel' => batch_turn i;; main_loop fuel' (i + BATCH_SIZE)
    end
  else ret tt.

Definition main : M unit :=
  let projectsDir := path_join (ROOT env) "projects" in
  let* folders :=
    try_catch (lift (scan projectsDir))
              (fun _ => emit (EvLog LogCouldNotReadDir);; process_exit 1) in
  emit (EvLog (LogUpdating (length folders)));;
  set_projects [];;
  load_projects projectsDir (sort folders);;
  set_totalUpdated 0;;
  let* n := gets (fun st => length (projects st)) in
  main_loop n 0;;
  let* total := gets totalUpdated in
  emit (EvLog (LogUpdated total)).

(** The module body: the credential check, then
    [main().catch(err => { console.error(err); process.exit(1) })]. *)
Definition token_present : bool :=
  match GITHUB_TOKEN env with
  | Some t => negb (String.eqb t "")
  | None => false
  end.

Definition script : M unit :=
  if token_present then
    try_catch main (fun err => emit (EvLog (LogUncaught err));; process_exit 1)
  else
    emit (EvLog LogTokenRequired);; process_exit 1.

End Script.

(** The status the process ends with: 0 when the module body and [main]
    run to their end, the argument of [process.exit] otherwise. *)
Definition exit_status (o : outcome unit) : option nat :=
  match o with
  | Ok _ => Some 0
  | Exit code => Some code
  | Throw _ => None
  | OutOfFuel => None
  end.

Definition initial_state (disk : gmap string string) : state := mkState disk [] 0 [].

(** ** What one pass over a batch amounts to

    The functions below describe the effect of the update loop on one
    descriptor and on a batch; [update_loop_run] proves that the loop does
    exactly this. *)

(** [starCounts[j]] *)
Definition stars_at (starCounts : list jsval) (j : nat) : jsval :=
  default JUndefined (starCounts !! j).

(** [data.stars !== stars] for a descriptor whose record is not [null]. *)
Definition differs (p : project) (stars : jsval) : bool :=
  strict_neq (get_member (data p) "stars") stars.

Definition with_stars (p : project) (stars : jsval) : project :=
  mkProject (folder p) (path p) (set_member (data p) "stars" stars).

Definition after_update (p : project) (stars : jsval) : project :=
  if differs p stars then with_stars p stars else p.

Definition item_events (p : project) (stars : jsval) : list event :=
  if differs p stars then
    [EvWrite (path p) (file_text (set_member (data p) "stars" stars));
     EvLog (LogStars (folder p) stars)]
  else [EvLog (LogNoChange (folder p) stars)].

Fixpoint batch_after (starCounts : list jsval) (j : nat) (batch : list project)
  : list project :=
  match batch with
  | [] => []
  | p :: rest => after_update p (stars_at starCounts j) :: batch_after starCounts (S j) rest
  end.

Fixpoint batch_events (starCounts : list jsval) (j : nat) (batch : list project)
  : list event :=
  match batch with
  | [] => []
  | p :: rest => item_events p (stars_at starCounts j) ++ batch_events starCounts (S j) rest
  end.

(** The writes of a trace, in order, and what they do to a disk. *)
Definition writes_of (evs : list event) : list (string * string) :=
  omap (fun e => match e with EvWrite p c => Some (p, c) | _ => None end) evs.

Definition apply_writes (disk : gmap string string) (ws : list (string * string))
  : gmap string string :=
  foldl (fun m w => <[fst w := snd w]> m) disk ws.

(** The calls of [fetchStarCounts] in a trace, in order. *)
Definition calls_of (evs : list event) : list (list repository) :=
  omap (fun e => match e with EvCall rs => Some rs | _ => None end) evs.

Definition posts_of (evs : list event) : list request :=
  omap (fun e => match e with EvPost r => Some r | _ => None end) evs.

Definition not_null (p : project) : Prop := nullish (data p) = false.

(** [{ slug: p.folder, url: p.data.github_repo }] *)
Definition repository_of (p : project) : repository :=
  mkRepository (folder p) (get_member (data p) "github_repo").

(** The count that the extraction loop reads for position [i] of a batch
    from a response body that is not [null]. *)
Definition star_of (result : jsval) (i : nat) : jsval :=
  nullish_coalesce
    (opt_member (opt_member (get_member result "data") (alias i)) "stargazerCount")
    (JNum 0).

Definition add_events (st : state) (evs : list event) : state :=
  mkState (files st) (projects st) (totalUpdated st) (trace st ++ evs).

(** What a call of [fetchStarCounts] emits and returns when [n] POSTs have
    been made before it; [fetchStarCounts_run] proves it. *)
Definition fetch_plan (env : environment) (n : nat) (repositories : list repository)
  : list event * outcome (list jsval) :=
  match map_queries 0 repositories with
  | Ok mapped =>
      let queries := filter_Boolean mapped in
      if length queries =? 0 then ([], Ok [])
      else
        let req := mkRequest (bearer env) (composite_query queries) in
        match service env n req with
        | FetchRejected => ([EvPost req], Throw FetchFailed)
        | FetchResolved false status (Some errorText) _ =>
            ([EvPost req], Throw (ApiError status errorText))
        | FetchResolved false _ None _ => ([EvPost req], Throw BodyFailed)
        | FetchResolved true _ _ None => ([EvPost req], Throw BodyFailed)
        | FetchResolved true _ _ (Some result) =>
            if nullish result then ([EvPost req], Throw TypeError)
            else
              (EvPost req ::
                 (if truthy (get_member result "errors")
                  then [EvLog (LogGraphQLErrors (get_member result "errors"))]
                  else []),
               Ok (map (star_of result) (seq 0 (length repositories))))
        end
  | Throw e => ([], Throw e)
  | Exit c => ([], Exit c)
  | OutOfFuel => ([], OutOfFuel)
  end.

Definition sleep_events (i len : nat) : list event :=
  if i + BATCH_SIZE <? len then [EvSleep 1000] else [].

(** The state after one turn of the batch loop whose descriptors are all
    records ([batch_turn_run] proves it): the batch is announced, the client
    is called, and then either the batch is updated or its failure is
    logged. *)
Definition turn_state (env : environment) (i : nat) (st : state) : state :=
  let ps := projects st in
  let batch := slice i (i + BATCH_SIZE) ps in
  let repositories := map repository_of batch in
  let head := [EvLog (LogFetching (i / BATCH_SIZE + 1)); EvCall repositories] in
  let plan := fetch_plan env (count_posts (trace st)) repositories in
  match snd plan with
  | Ok starCounts =>
      let evs := batch_events starCounts 0 batch in
      mkState (apply_writes (files st) (writes_of evs))
              (take i ps ++ batch_after starCounts 0 batch ++ drop (i + BATCH_SIZE) ps)
              (totalUpdated st + length (writes_of evs))
              (trace st ++ head ++ fst plan ++ evs ++ sleep_events i (length ps))
  | Throw e =>
      add_events st (head ++ fst plan ++ [EvLog (LogBatchFailed e)]
                       ++ sleep_events i (length ps))
  | _ => add_events st (head ++ fst plan)
  end.

(** The state after the batch loop, from index [i] on, when every remaining
    descriptor is a record ([main_loop_run] proves it). *)
Fixpoint loop_state (env : environment) (fuel i : nat) (st : state) : state :=
  if i <? length (projects st) then
    match fuel with
    | 0 => st
    | S fuel' => loop_state env fuel' (i + BATCH_SIZE) (turn_state env i st)
    end
  else st.



(** The events a state gained since an earlier one. *)
Definition events_since (before after : state) : list event :=
  drop (length (trace before)) (trace after).

(** ** Example inputs *)

Definition example_record (name : string) (stars : list (string * jsval)) : jsval :=
  JObj (("github_repo", JStr ("https://github.com/acme/" +:+ name)) :: stars).

Definition example_project (name : string) (stars : list (string * jsval)) : project :=
  mkProject name ("/repo/projects/" +:+ name +:+ "/project.json") (example_record name stars).


(** A service that is down. *)
Definition offline_env : environment :=
  mkEnvironment (Some "token") "/repo" (fun _ => None) (fun _ => None)
    (fun _ _ => FetchRejected) (fun _ => None).

(** The two descriptors of the specification's example: [bar] has no star
    count yet, [foo] has ten. *)
Definition two_projects : list project :=
  [example_project "bar" []; example_project "foo" [("stars", JNum 10)]].

Definition two_disk : gmap string string :=
  <[path (example_project "bar" []) := file_text (example_record "bar" [])]>
    (<[path (example_project "foo" []) := file_text (example_record "foo" [("stars", JNum 10)])]> ∅).

Definition two_state : state := mkState two_disk two_projects 0 [].

(** The state in which the turn for the batch at [i] calls the client. *)
Definition call_state (i : nat) (st : state) : state :=
  add_events st
    [EvLog (LogFetching (i / BATCH_SIZE + 1));
     EvCall (map repository_of (slice i (i + BATCH_SIZE) (projects st)))].

(** ** What loading amounts to *)

Definition load_one (env : environment) (disk : gmap string string)
    (projectsDir folder : string) : option project :=
  match disk !! json_path projectsDir folder with
  | Some raw =>
      match JSON_parse env raw with
      | Some v => Some (mkProject folder (json_path projectsDir folder) v)
      | None => None
      end
  | None => None
  end.

(** The descriptors the loader collects from a disk ([load_projects_run]
    proves it), and what it logs. *)
Definition loaded (env : environment) (disk : gmap string string)
    (projectsDir : string) (folders : list string) : list project :=
  omap (load_one env disk projectsDir) folders.

Definition load_events (env : environment) (disk : gmap string string)
    (projectsDir : string) (folders : list string) : list event :=
  omap (fun folder =>
          match load_one env disk projectsDir folder with
          | Some _ => None
          | None => Some (EvLog (LogCouldNotReadJson folder))
          end) folders.

Definition has_null (ps : list project) : bool :=
  existsb (fun p => nullish (data p)) ps.

Definition projects_dir (env : environment) : string := path_join (ROOT env) "projects".

(** One folder, [x], whose [project.json] holds the JSON text [null]. *)
Definition null_env : environment :=
  mkEnvironment (Some "token") "/repo"
    (fun dir => if String.eqb dir "/repo/projects" then Some ["x"] else None)
    (fun _ => Some true)
    (fun _ _ => FetchRejected)
    (fun raw => if String.eqb raw "null" then Some JNull else None).

Definition null_disk : gmap string string :=
  <["/repo/projects/x/project.json" := "null"]> ∅.

(** ** The shape of a rewritten file *)



(** ** A second run *)




(** A service that knows two repositories: three stars for the first
    alias, ten for the second. *)
Definition star_response : jsval :=
  JObj [("data", JObj [("repo0", JObj [("stargazerCount", JNum 3)]);
                       ("repo1", JObj [("stargazerCount", JNum 10)])])].

Definition example_parse (raw : string) : option jsval :=
  if String.eqb raw (file_text (example_record "bar" [])) then
    Some (example_record "bar" [])
  else if String.eqb raw (file_text (example_record "bar" [("stars", JNum 3)])) then
    Some (example_record "bar" [("stars", JNum 3)])
  else if String.eqb raw (file_text (example_record "foo" [("stars", JNum 10)])) then
    Some (example_record "foo" [("stars", JNum 10)])
  else None.

Definition example_env : environment :=
  mkEnvironment (Some "token") "/repo"
    (fun dir => if String.eqb dir "/repo/projects" then Some ["foo"; "bar"; "README.md"]
                else None)
    (fun p => Some (negb (String.eqb p "/repo/projects/README.md")))
    (fun _ _ => FetchResolved true 200 (Some "") (Some star_response))
    example_parse.

(** A batch in which no URL has the owner/name shape: [old] has ten stars
    recorded, [new] has none. *)
Definition malformed_projects : list project :=
  [mkProject "old" "/repo/projects/old/project.json"
     (JObj [("github_repo", JStr "https://github.com/acme"); ("stars", JNum 10)]);
   mkProject "new" "/repo/projects/new/project.json"
     (JObj [("github_repo", JStr "https://example.org/a/b/c")])].

Definition malformed_state : state := mkState ∅ malformed_projects 0 [].

(** ** Notions used to state the properties *)

(** The inclusion rule as the specification words it: the URL, without the
    host prefix, splits on the slash into exactly two non-empty parts. *)
Definition two_nonempty_components (u : string) : bool :=
  match url_parts u with
  | [owner; name] => negb (String.eqb owner "") && negb (String.eqb name "")
  | _ => false
  end.

(** The inclusion rule of the code: [build_query] returns a line. *)
Definition included (idx : nat) (repo : repository) : bool :=
  match build_query idx repo with
  | Ok (Some _) => true
  | _ => false
  end.

Definition C7_batch : list repository :=
  [mkRepository "foo" (JStr "https://github.com/acme/foo");
   mkRepository "bad" (JStr "https://github.com/acme")].











(** ** Notions used by the further properties *)

Definition host_prefix : string := "https://github.com/".

Fixpoint count_char (c : ascii) (s : string) : nat :=
  match s with
  | "" => 0
  | String x s' => (if Ascii.eqb x c then 1 else 0) + count_char c s'
  end.

(** [repo.url] is a string. *)
Definition string_url (r : repository) : Prop := exists u, url r = JStr u.


Definition logs_of (evs : list event) : list log_line :=
  omap (fun e => match e with EvLog l => Some l | _ => None end) evs.

(** A request as [fetchStarCounts] builds it for a batch of at most [n]
    descriptors: the bearer header of the environment and a composite query
    of one to [n] lines. *)
Definition well_formed_post (env : environment) (n : nat) (r : request) : Prop :=
  authorization r = bearer env /\
  exists queries,
    body_query r = composite_query queries /\ 1 <= length queries <= n.


(** A response with a partial error: data for the first alias only. *)
Definition partial_response : jsval :=
  JObj [("data", JObj [("repo0", JObj [("stargazerCount", JNum 7)]); ("repo1", JNull)]);
        ("errors", JArr [JObj [("message", JStr "Could not resolve")]])].

Definition partial_env : environment :=
  mkEnvironment (Some "token") "/repo" (fun _ => None) (fun _ => None)
    (fun _ _ => FetchResolved true 200 (Some "") (Some partial_response))
    (fun _ => None).

(** What every stretch of a run keeps, from a state [st] to a later state
    [st']: the disk changes by the logged writes only, the counter counts
    them, the descriptors keep their folders and paths, only descriptor
    files are written, every request is well formed, and there are no more
    requests than calls of the client. *)
Definition run_invariant (env : environment) (st st' : state) : Prop :=
  exists evs,
    trace st' = trace st ++ evs /\
    files st' = apply_writes (files st) (writes_of evs) /\
    totalUpdated st' = totalUpdated st + length (writes_of evs) /\
    map path (projects st') = map path (projects st) /\
    map folder (projects st') = map folder (projects st) /\
    Forall (fun w => In (fst w) (map path (projects st))) (writes_of evs) /\
    Forall (well_formed_post env BATCH_SIZE) (posts_of evs) /\
    length (posts_of evs) <= length (calls_of evs).

(** * Properties *)

(** ** Which descriptors enter the composite query *)

Lemma build_query_line idx s u :
  build_query idx (mkRepository s (JStr u)) =
    match url_parts u with
    | [owner; name] => Ok (Some (query_line idx owner name))
    | _ => Ok None
    end.
Proof. reflexivity. Qed.

Lemma map_queries_lookup repos : forall idx mapped j repo,
  map_queries idx repos = Ok mapped ->
  repos !! j = Some repo ->
  exists q, build_query (idx + j) repo = Ok q /\ mapped !! j = Some q.
Proof.
  induction repos as [|r rest IH]; intros idx mapped j repo Hmap Hj.
  - discriminate.
  - cbn [map_queries] in Hmap.
    destruct (build_query idx r) as [q| | |] eqn:Hq; try discriminate.
    destruct (map_queries (S idx) rest) as [qs| | |] eqn:Hqs; try discriminate.
    injection Hmap as <-.
    destruct j as [|j]; cbn in Hj.
    + injection Hj as <-. exists q. rewrite Nat.add_0_r. split; [exact Hq|reflexivity].
    + destruct (IH (S idx) qs j repo Hqs Hj) as (q' & Hb & Hl).
      exists q'. split; [|exact Hl].
      replace (idx + S j) with (S idx + j) by lia. exact Hb.
Qed.

Lemma map_queries_length repos : forall idx mapped,
  map_queries idx repos = Ok mapped -> length mapped = length repos.
Proof.
  induction repos as [|r rest IH]; intros idx mapped Hmap; cbn [map_queries] in Hmap.
  - injection Hmap as <-. reflexivity.
  - destruct (build_query idx r) as [q| | |]; try discriminate.
    destruct (map_queries (S idx) rest) as [qs| | |] eqn:Hqs; try discriminate.
    injection Hmap as <-. cbn. f_equal. eauto.
Qed.

(** C7, as the code has it: descriptor [j] of a batch contributes a line to
    the composite query exactly when its URL, with the first occurrence of
    the host prefix removed, splits on the slash into exactly two parts; the
    parts may be empty.  The line carries the alias [repo<j>] and the two
    parts. *)
Theorem C7_included_iff_two_components repos mapped j repo :
  map_queries 0 repos = Ok mapped ->
  repos !! j = Some repo ->
  exists u, url repo = JStr u /\
    ((exists q, mapped !! j = Some (Some q)) <-> length (url_parts u) = 2) /\
    (mapped !! j = Some None <-> length (url_parts u) <> 2) /\
    (forall owner name, url_parts u = [owner; name] ->
       mapped !! j = Some (Some (query_line j owner name))).
Proof.
  intros Hmap Hj.
  destruct (map_queries_lookup _ _ _ _ _ Hmap Hj) as (q & Hb & Hl).
  cbn in Hb. destruct repo as [s v]. unfold build_query in Hb. cbn [url] in *.
  destruct v as [| | | |u| |]; try discriminate.
  exists u. split; [reflexivity|]. rewrite Hl.
  destruct (url_parts u) as [|a [|b [|c rest]]] eqn:Hparts; cbn [length];
    injection Hb as <-.
  - repeat split; try discriminate; try lia. intros [q' Hq']; discriminate.
  - repeat split; try discriminate; try lia. intros [q' Hq']; discriminate.
  - repeat split; try discriminate; try (intros H; exfalso; lia); eauto.
    intros owner name Heq. injection Heq as <- <-. reflexivity.
  - repeat split; try discriminate; try lia. intros [q' Hq']; discriminate.
Qed.

Lemma C7_included_iff_two_components_witness :
  exists u, url (mkRepository "foo" (JStr "https://github.com/acme/foo")) = JStr u /\
    ((exists q, [Some (query_line 0 "acme" "foo"); None] !! 0 = Some (Some q))
       <-> length (url_parts u) = 2) /\
    ([Some (query_line 0 "acme" "foo"); None] !! 0 = Some None
       <-> length (url_parts u) <> 2) /\
    (forall owner name, url_parts u = [owner; name] ->
       [Some (query_line 0 "acme" "foo"); None] !! 0
         = Some (Some (query_line 0 owner name))).
Proof.
  apply (C7_included_iff_two_components C7_batch
           [Some (query_line 0 "acme" "foo"); None] 0
           (mkRepository "foo" (JStr "https://github.com/acme/foo")));
    reflexivity.
Defined.

(** C7, as the specification states it, fails: a URL with an empty name part
    splits in two, so the code puts it in the query, with an empty name. *)
Lemma C7_empty_component_is_included :
  two_nonempty_components "https://github.com/acme/" = false /\
  included 0 (mkRepository "foo" (JStr "https://github.com/acme/")) = true /\
  (map_queries 0 [mkRepository "foo" (JStr "https://github.com/acme/")]
     = Ok [Some (query_line 0 "acme" "")]) /\
  ~ (forall idx repo u, url repo = JStr u ->
       included idx repo = two_nonempty_components u).
Proof.
  split; [reflexivity|]. split; [reflexivity|]. split; [reflexivity|].
  intros H.
  specialize (H 0 (mkRepository "foo" (JStr "https://github.com/acme/")) _ eq_refl).
  discriminate H.
Qed.

(** ** The order of the scanned folders *)

Lemma ascii_compare_refl c : Ascii.compare c c = Eq.
Proof. unfold Ascii.compare. apply N.compare_refl. Qed.

Lemma string_compare_refl s : String.compare s s = Eq.
Proof. induction s as [|c s IH]; cbn; [reflexivity|]. rewrite ascii_compare_refl. exact IH. Qed.



Lemma insert_sorted_perm x l : insert_sorted x l ≡ₚ x :: l.
Proof.
  induction l as [|y l IH]; cbn; [reflexivity|].
  destruct (String.leb x y); [reflexivity|].
  rewrite IH. apply Permutation_swap.
Qed.

Lemma sort_perm l : sort l ≡ₚ l.
Proof.
  induction l as [|x l IH]; cbn; [reflexivity|].
  unfold sort in IH. rewrite insert_sorted_perm, IH. reflexivity.
Qed.







(** ** The update loop *)

Ltac mrun :=
  cbv beta iota delta
    [bind ret lift throw process_exit try_catch gets modify emit set_projects
     set_totalUpdated writeFileSync set_data push_project];
  cbn [files projects totalUpdated trace fst snd].

Lemma update_one_run i cs j st p :
  projects st !! (i + j) = Some p ->
  not_null p ->
  update_one i cs j st =
    (mkState
       (apply_writes (files st) (writes_of (item_events p (stars_at cs j))))
       (<[i + j := after_update p (stars_at cs j)]> (projects st))
       (totalUpdated st + length (writes_of (item_events p (stars_at cs j))))
       (trace st ++ item_events p (stars_at cs j)),
     Ok tt).
Proof.
  intros Hp Hnn. unfold not_null in Hnn.
  unfold update_one. mrun. rewrite Hp.
  unfold get_prop. rewrite Hnn. mrun.
  unfold item_events, after_update, differs, stars_at.
  destruct (strict_neq (get_member (data p) "stars") (default JUndefined (cs !! j))).
  - mrun. rewrite Hp. mrun.
    cbn [writes_of omap apply_writes foldl fst snd length with_stars].
    rewrite Nat.add_1_r, <- app_assoc. reflexivity.
  - mrun.
    cbn [writes_of omap apply_writes foldl length]. rewrite Nat.add_0_r.
    rewrite list_insert_id by exact Hp. reflexivity.
Qed.

Lemma writes_of_app e1 e2 : writes_of (e1 ++ e2) = writes_of e1 ++ writes_of e2.
Proof. unfold writes_of. apply omap_app. Qed.

Lemma calls_of_app e1 e2 : calls_of (e1 ++ e2) = calls_of e1 ++ calls_of e2.
Proof. unfold calls_of. apply omap_app. Qed.

Lemma posts_of_app e1 e2 : posts_of (e1 ++ e2) = posts_of e1 ++ posts_of e2.
Proof. unfold posts_of. apply omap_app. Qed.

Lemma apply_writes_app disk w1 w2 :
  apply_writes disk (w1 ++ w2) = apply_writes (apply_writes disk w1) w2.
Proof. unfold apply_writes. apply foldl_app. Qed.

Lemma update_loop_run i cs : forall b pre post j st,
  projects st = pre ++ b ++ post ->
  length pre = i + j ->
  Forall not_null b ->
  update_loop i cs (length b) j st =
    (mkState
       (apply_writes (files st) (writes_of (batch_events cs j b)))
       (pre ++ batch_after cs j b ++ post)
       (totalUpdated st + length (writes_of (batch_events cs j b)))
       (trace st ++ batch_events cs j b),
     Ok tt).
Proof.
  induction b as [|p b IH]; intros pre post j st Hps Hlen Hnn.
  - cbn in *. mrun. rewrite Nat.add_0_r, app_nil_r, <- Hps. destruct st; reflexivity.
  - inversion Hnn as [|? ? Hp Hb]; subst.
    assert (Hlook : projects st !! (i + j) = Some p).
    { rewrite Hps, <- Hlen. apply list_lookup_middle. reflexivity. }
    cbn [length update_loop]. unfold bind at 1.
    rewrite (update_one_run i cs j st p Hlook Hp).
    rewrite (IH (pre ++ [after_update p (stars_at cs j)]) post (S j)).
    + cbn [files projects totalUpdated trace batch_events batch_after].
      rewrite writes_of_app, apply_writes_app, length_app, <- !app_assoc, Nat.add_assoc.
      reflexivity.
    + cbn [projects]. rewrite Hps, <- Hlen.
      rewrite insert_app_r_alt by lia. rewrite Nat.sub_diag. cbn.
      rewrite <- app_assoc. reflexivity.
    + rewrite length_app. cbn. lia.
    + exact Hb.
Qed.

(** ** [fetchStarCounts] *)

Lemma add_events_nil st : add_events st [] = st.
Proof. unfold add_events. rewrite app_nil_r. destruct st; reflexivity. Qed.

Lemma add_events_app st e1 e2 :
  add_events (add_events st e1) e2 = add_events st (e1 ++ e2).
Proof. unfold add_events. cbn. rewrite app_assoc. reflexivity. Qed.

Lemma extract_loop_run result : forall r i acc st,
  nullish result = false ->
  extract_loop result r i acc st = (st, Ok (acc ++ map (star_of result) (seq i r))).
Proof.
  induction r as [|r IH]; intros i acc st Hnn.
  - cbn. mrun. rewrite app_nil_r. reflexivity.
  - cbn [extract_loop]. unfold star_at, get_prop. rewrite Hnn. mrun.
    rewrite IH by exact Hnn. cbn [seq map]. rewrite <- app_assoc. reflexivity.
Qed.

Lemma fetchStarCounts_run env repos st :
  fetchStarCounts env repos st =
    (add_events st (fst (fetch_plan env (count_posts (trace st)) repos)),
     snd (fetch_plan env (count_posts (trace st)) repos)).
Proof.
  unfold fetchStarCounts, fetch_plan. mrun.
  destruct (map_queries 0 repos) as [mapped| | |]; cbn [fst snd];
    try (rewrite add_events_nil; reflexivity).
  destruct (length (filter_Boolean mapped) =? 0); cbn [fst snd].
  { rewrite add_events_nil. reflexivity. }
  unfold fetch. cbn [trace].
  destruct (service env (count_posts (trace st))
              (mkRequest (bearer env) (composite_query (filter_Boolean mapped))))
    as [|ok status text json]; cbn [fst snd]; [reflexivity|].
  destruct ok; cbn [negb].
  - destruct json as [result|]; [|reflexivity].
    unfold get_prop. destruct (nullish result) eqn:Hnn; cbn [fst snd]; [reflexivity|].
    destruct (truthy (get_member result "errors")); cbn [trace].
    + rewrite extract_loop_run by exact Hnn. cbn [app].
      unfold add_events. cbn. rewrite <- app_assoc. reflexivity.
    + rewrite extract_loop_run by exact Hnn. reflexivity.
  - destruct text; reflexivity.
Qed.

(** ** One turn of the batch loop *)

Lemma map_repositories_run batch st :
  Forall not_null batch ->
  map_repositories batch st = (st, Ok (map repository_of batch)).
Proof.
  induction 1 as [|p rest Hp _ IH]; [reflexivity|].
  cbn [map_repositories map]. unfold get_prop. rewrite Hp. mrun. rewrite IH.
  reflexivity.
Qed.

Lemma map_repositories_null batch st :
  Exists (fun p => nullish (data p) = true) batch ->
  map_repositories batch st = (st, Throw TypeError).
Proof.
  induction batch as [|p rest IH]; intros Hex.
  - inversion Hex.
  - cbn [map_repositories]. unfold get_prop.
    destruct (nullish (data p)) eqn:Hp; mrun; [reflexivity|].
    rewrite IH; [reflexivity|].
    inversion Hex as [? ? Hhd|? ? Htl]; subst; [congruence|exact Htl].
Qed.

Lemma not_null_dec batch :
  Forall not_null batch \/ Exists (fun p => nullish (data p) = true) batch.
Proof.
  induction batch as [|p rest [IH|IH]].
  - left. constructor.
  - destruct (nullish (data p)) eqn:Hp.
    + right. constructor. exact Hp.
    + left. constructor; assumption.
  - right. apply Exists_cons_tl. exact IH.
Qed.

Lemma slice_take_drop {A} (i n : nat) (l : list A) :
  slice i (i + n) l = take n (drop i l).
Proof. unfold slice. f_equal. lia. Qed.

Lemma slice_split {A} (i n : nat) (l : list A) :
  l = take i l ++ slice i (i + n) l ++ drop (i + n) l.
Proof.
  rewrite slice_take_drop.
  rewrite <- (take_drop i l) at 1. f_equal.
  rewrite <- (take_drop n (drop i l)) at 1. f_equal.
  rewrite drop_drop. reflexivity.
Qed.

Lemma count_posts_app e1 e2 : count_posts (e1 ++ e2) = count_posts e1 + count_posts e2.
Proof. unfold count_posts. rewrite filter_app, length_app. reflexivity. Qed.

Lemma map_queries_outcome repos : forall idx,
  (exists mapped, map_queries idx repos = Ok mapped) \/ map_queries idx repos = Throw TypeError.
Proof.
  induction repos as [|r rest IH]; intros idx; cbn [map_queries].
  - left. eauto.
  - unfold build_query.
    destruct (url r); try (right; reflexivity).
    destruct (IH (S idx)) as [[qs Hqs]|Hqs]; rewrite Hqs.
    + left. destruct (url_parts s) as [|a [|b [|c l]]]; eauto.
    + right. destruct (url_parts s) as [|a [|b [|c l]]]; reflexivity.
Qed.

Lemma fetch_plan_outcome env n repos :
  (exists cs, snd (fetch_plan env n repos) = Ok cs) \/
  (exists e, snd (fetch_plan env n repos) = Throw e).
Proof.
  unfold fetch_plan.
  destruct (map_queries_outcome repos 0) as [[mapped ->]| ->]; [|right; eauto].
  destruct (length (filter_Boolean mapped) =? 0); [left; eauto|].
  destruct (service env n _) as [|[] status [text|] [result|]]; cbn; eauto.
  - destruct (nullish result); cbn; eauto.
  - destruct (nullish result); cbn; eauto.
Qed.

Lemma length_batch_after cs : forall b j, length (batch_after cs j b) = length b.
Proof. induction b as [|p b IH]; intros j; cbn; [reflexivity|]. f_equal. apply IH. Qed.

Lemma batch_turn_run env i st :
  i <= length (projects st) ->
  Forall not_null (slice i (i + BATCH_SIZE) (projects st)) ->
  batch_turn env i st = (turn_state env i st, Ok tt).
Proof.
  intros Hi Hnn. unfold batch_turn, turn_state.
  set (ps := projects st) in *.
  set (b := slice i (i + BATCH_SIZE) ps) in *.
  unfold bind at 1. unfold gets at 1. fold ps. fold b.
  unfold bind at 1. unfold emit at 1, modify at 1.
  unfold bind at 1. rewrite map_repositories_run by exact Hnn.
  unfold bind at 1. unfold try_catch.
  unfold bind at 1. unfold emit at 1, modify at 1. cbn [files projects totalUpdated trace].
  unfold bind at 1. rewrite fetchStarCounts_run. cbn [trace].
  assert (Hcount : count_posts
            ((trace st ++ [EvLog (LogFetching (i `div` BATCH_SIZE + 1))]) ++
               [EvCall (map repository_of b)]) = count_posts (trace st)).
  { rewrite !count_posts_app. unfold count_posts.
    rewrite !filter_cons_False by (cbn; tauto). cbn. lia. }
  rewrite Hcount.
  destruct (fetch_plan_outcome env (count_posts (trace st)) (map repository_of b))
    as [[cs Hcs]|[e He]].
  - rewrite Hcs.
    rewrite (update_loop_run i cs b (take i ps) (drop (i + BATCH_SIZE) ps) 0).
    + mrun. fold ps. unfold sleep_events.
      rewrite length_app, length_take, length_app, length_drop.
      rewrite length_batch_after.
      assert (Hlen : i `min` length ps + (length b + (length ps - (i + BATCH_SIZE)))
                     = length ps).
      { unfold b. rewrite slice_take_drop, length_take, length_drop. lia. }
      rewrite Hlen. unfold add_events. cbn [files projects totalUpdated trace].
      destruct (i + BATCH_SIZE <? length ps); mrun;
        rewrite <- ?app_assoc; cbn [app]; rewrite ?app_nil_r; reflexivity.
    + cbn [projects add_events]. apply slice_split.
    + rewrite length_take. lia.
    + exact Hnn.
  - rewrite He. mrun. fold ps. unfold sleep_events, add_events.
    cbn [files projects totalUpdated trace].
    destruct (i + BATCH_SIZE <? length ps); mrun;
      rewrite <- ?app_assoc; cbn [app]; rewrite ?app_nil_r; reflexivity.
Qed.

Lemma batch_turn_null env i st :
  Exists (fun p => nullish (data p) = true) (slice i (i + BATCH_SIZE) (projects st)) ->
  batch_turn env i st =
    (add_events st [EvLog (LogFetching (i / BATCH_SIZE + 1))], Throw TypeError).
Proof.
  intros Hex. unfold batch_turn.
  unfold bind at 1. unfold gets at 1.
  unfold bind at 1. unfold emit at 1, modify at 1.
  unfold bind at 1. rewrite map_repositories_null by exact Hex.
  reflexivity.
Qed.

Lemma count_posts_length tr : count_posts tr = length (posts_of tr).
Proof.
  unfold count_posts, posts_of.
  induction tr as [|e tr IH]; [reflexivity|].
  destruct e;
    rewrite ?filter_cons_False by (cbn; tauto);
    rewrite ?filter_cons_True by (cbn; tauto); cbn; cbn in IH; congruence.
Qed.

Lemma posts_of_cons_quiet e evs : is_post e = false -> posts_of (e :: evs) = posts_of evs.
Proof. destruct e; intros H; try discriminate; reflexivity. Qed.

Lemma fetch_plan_quiet env n repos :
  writes_of (fst (fetch_plan env n repos)) = [] /\
  calls_of (fst (fetch_plan env n repos)) = [].
Proof.
  unfold fetch_plan.
  destruct (map_queries 0 repos) as [mapped| | |]; try (split; reflexivity).
  destruct (length (filter_Boolean mapped) =? 0); [split; reflexivity|].
  destruct (service env n _) as [|[] status [text|] [result|]];
    try (split; reflexivity).
  - destruct (nullish result); [split; reflexivity|].
    destruct (truthy (get_member result "errors")); split; reflexivity.
  - destruct (nullish result); [split; reflexivity|].
    destruct (truthy (get_member result "errors")); split; reflexivity.
Qed.

Lemma batch_events_quiet cs : forall j b,
  calls_of (batch_events cs j b) = [] /\ posts_of (batch_events cs j b) = [].
Proof.
  intros j b. revert j. induction b as [|p b IH]; intros j; [split; reflexivity|].
  cbn [batch_events]. rewrite calls_of_app, posts_of_app.
  destruct (IH (S j)) as (-> & ->).
  unfold item_events. destruct (differs p (stars_at cs j)); split; reflexivity.
Qed.

Lemma sleep_events_quiet_calls i len : calls_of (sleep_events i len) = [].
Proof. unfold sleep_events. destruct (i + BATCH_SIZE <? len); reflexivity. Qed.

Lemma sleep_events_quiet_writes i len : writes_of (sleep_events i len) = [].
Proof. unfold sleep_events. destruct (i + BATCH_SIZE <? len); reflexivity. Qed.

Lemma sleep_events_quiet_posts i len : posts_of (sleep_events i len) = [].
Proof. unfold sleep_events. destruct (i + BATCH_SIZE <? len); reflexivity. Qed.

(** What a turn leaves alone and what it adds. *)
Lemma turn_state_frame env i st :
  i <= length (projects st) ->
  exists evs,
    trace (turn_state env i st) = trace st ++ evs /\
    calls_of evs = [map repository_of (slice i (i + BATCH_SIZE) (projects st))] /\
    files (turn_state env i st) = apply_writes (files st) (writes_of evs) /\
    totalUpdated (turn_state env i st) = totalUpdated st + length (writes_of evs) /\
    length (projects (turn_state env i st)) = length (projects st) /\
    take i (projects (turn_state env i st)) = take i (projects st) /\
    drop (i + BATCH_SIZE) (projects (turn_state env i st))
      = drop (i + BATCH_SIZE) (projects st) /\
    count_posts (trace (turn_state env i st))
      = count_posts (trace st)
        + length (posts_of (fst (fetch_plan env (count_posts (trace st))
              (map repository_of (slice i (i + BATCH_SIZE) (projects st)))))).
Proof.
  intros Hi. unfold turn_state.
  set (ps := projects st) in *.
  set (b := slice i (i + BATCH_SIZE) ps).
  set (plan := fetch_plan env (count_posts (trace st)) (map repository_of b)).
  destruct (fetch_plan_quiet env (count_posts (trace st)) (map repository_of b))
    as (Hw & Hc). fold plan in Hw, Hc.
  assert (Hlenb : length b = BATCH_SIZE `min` (length ps - i)).
  { unfold b. rewrite slice_take_drop, length_take, length_drop. reflexivity. }
  destruct (fetch_plan_outcome env (count_posts (trace st)) (map repository_of b))
    as [[cs Hcs]|[e He]]; fold plan in Hcs || fold plan in He.
  - rewrite Hcs. eexists. cbn [files projects totalUpdated trace].
    split; [reflexivity|].
    destruct (batch_events_quiet cs 0 b) as (Hbc & Hbp).
    rewrite !calls_of_app, !writes_of_app, Hc, Hw, Hbc, sleep_events_quiet_calls,
      sleep_events_quiet_writes.
    change (writes_of [EvLog (LogFetching (i `div` BATCH_SIZE + 1));
                       EvCall (map repository_of b)]) with (@nil (string * string)).
    cbn [app]. rewrite !app_nil_r.
    split; [reflexivity|]. split; [reflexivity|]. split; [reflexivity|].
    split; [|split; [|split]].
    + rewrite !length_app, length_take, length_batch_after, length_drop. lia.
    + rewrite take_app_length' by (rewrite length_take; lia). reflexivity.
    + rewrite drop_app_ge by (rewrite length_take; lia).
      rewrite length_take, drop_app_ge by (rewrite length_batch_after; lia).
      rewrite length_batch_after, drop_drop.
      destruct (decide (length ps <= i + BATCH_SIZE)) as [Hle|Hgt].
      * rewrite !drop_ge by lia. reflexivity.
      * f_equal. lia.
    + rewrite !count_posts_length, posts_of_app.
      change (posts_of (EvLog (LogFetching (i `div` BATCH_SIZE + 1))
                :: EvCall (map repository_of b)
                :: plan.1 ++ batch_events cs 0 b ++ sleep_events i (length ps)))
        with (posts_of (plan.1 ++ batch_events cs 0 b ++ sleep_events i (length ps))).
      rewrite !posts_of_app, !length_app, Hbp, sleep_events_quiet_posts. cbn. lia.
  - rewrite He. eexists. unfold add_events. cbn [files projects totalUpdated trace].
    split; [reflexivity|].
    rewrite !calls_of_app, !writes_of_app, Hc, Hw, sleep_events_quiet_calls,
      sleep_events_quiet_writes.
    change (writes_of [EvLog (LogFetching (i `div` BATCH_SIZE + 1));
                       EvCall (map repository_of b)]) with (@nil (string * string)).
    cbn [app writes_of omap length apply_writes foldl].
    split; [reflexivity|]. split; [reflexivity|]. split; [cbn; lia|].
    split; [reflexivity|]. split; [reflexivity|]. split; [reflexivity|].
    rewrite !count_posts_length.
    repeat (rewrite ?posts_of_app, ?posts_of_cons_quiet by reflexivity).
    rewrite sleep_events_quiet_posts, !length_app. cbn [posts_of omap list_omap length]. lia.
Qed.

(** ** The batch loop *)

Lemma main_loop_unfold env fuel i st :
  main_loop env fuel i st =
    if i <? length (projects st) then
      match fuel with
      | 0 => (st, OutOfFuel)
      | S fuel' => (batch_turn env i;; main_loop env fuel' (i + BATCH_SIZE)) st
      end
    else (st, Ok tt).
Proof.
  destruct fuel; cbn [main_loop]; mrun;
    destruct (i <? length (projects st)); reflexivity.
Qed.

Lemma slice_not_null i (ps : list project) :
  Forall not_null (drop i ps) -> Forall not_null (slice i (i + BATCH_SIZE) ps).
Proof. intros H. rewrite slice_take_drop. apply Forall_take. exact H. Qed.

Lemma main_loop_run env : forall fuel i st,
  Forall not_null (drop i (projects st)) ->
  length (projects st) - i <= fuel ->
  main_loop env fuel i st = (loop_state env fuel i st, Ok tt).
Proof.
  induction fuel as [|fuel IH]; intros i st Hnn Hfuel;
    rewrite main_loop_unfold; cbn [loop_state];
    destruct (i <? length (projects st)) eqn:Hlt; try reflexivity.
  - apply Nat.ltb_lt in Hlt. lia.
  - apply Nat.ltb_lt in Hlt.
    unfold bind. rewrite batch_turn_run by (try apply slice_not_null; auto; lia).
    destruct (turn_state_frame env i st) as (evs & _ & _ & _ & _ & Hlen & _ & Hdrop & _);
      [lia|].
    apply IH.
    + rewrite Hdrop, <- drop_drop. apply Forall_drop. exact Hnn.
    + rewrite Hlen. unfold BATCH_SIZE. lia.
Qed.

Lemma main_loop_crash env : forall fuel i st,
  Exists (fun p => nullish (data p) = true) (drop i (projects st)) ->
  length (projects st) - i <= fuel ->
  exists st', main_loop env fuel i st = (st', Throw TypeError) /\
    length (projects st') = length (projects st).
Proof.
  induction fuel as [|fuel IH]; intros i st Hex Hfuel;
    rewrite main_loop_unfold;
    destruct (i <? length (projects st)) eqn:Hlt.
  - apply Nat.ltb_lt in Hlt. lia.
  - apply Nat.ltb_ge in Hlt. rewrite drop_ge in Hex by lia. inversion Hex.
  - apply Nat.ltb_lt in Hlt. unfold bind.
    destruct (not_null_dec (slice i (i + BATCH_SIZE) (projects st))) as [Hnn|Hnull].
    + rewrite batch_turn_run by (auto; lia).
      destruct (turn_state_frame env i st) as (evs & _ & _ & _ & _ & Hlen & _ & Hdrop & _);
        [lia|].
      destruct (IH (i + BATCH_SIZE) (turn_state env i st)) as (st' & Hrun & Hlen').
      * rewrite Hdrop.
        rewrite <- (take_drop BATCH_SIZE (drop i (projects st))) in Hex.
        apply Exists_app in Hex. destruct Hex as [Hex|Hex].
        -- exfalso. rewrite slice_take_drop in Hnn.
           apply Exists_exists in Hex. destruct Hex as (p & Hin & Hp).
           rewrite Forall_forall in Hnn. specialize (Hnn p Hin).
           unfold not_null in Hnn. congruence.
        -- rewrite drop_drop in Hex. exact Hex.
      * rewrite Hlen. unfold BATCH_SIZE. lia.
      * exists st'. split; [exact Hrun|congruence].
    + rewrite batch_turn_null by exact Hnull. eexists. split; reflexivity.
  - apply Nat.ltb_ge in Hlt. rewrite drop_ge in Hex by lia. inversion Hex.
Qed.

(** ** Cutting a list into batches *)

Section Chunks.
Context {A : Type}.
Variable n : nat.
Hypothesis n_pos : 0 < n.




End Chunks.




(** ** A batch whose query fails *)

Lemma events_since_app st st' evs :
  trace st' = trace st ++ evs -> events_since st st' = evs.
Proof. intros H. unfold events_since. rewrite H. apply drop_app_length. Qed.

Lemma events_since_add st evs : events_since st (add_events st evs) = evs.
Proof. apply events_since_app. reflexivity. Qed.

Lemma count_posts_call st l rs :
  count_posts (trace (add_events st [EvLog l; EvCall rs])) = count_posts (trace st).
Proof.
  cbn [add_events trace]. rewrite !count_posts_length, posts_of_app. cbn.
  rewrite app_nil_r. reflexivity.
Qed.

(** The state in which a turn calls the client, and the turn's outcome in
    terms of the outcome of that call. *)
Lemma turn_state_cases env i st st1 o :
  let batch := slice i (i + BATCH_SIZE) (projects st) in
  let repositories := map repository_of batch in
  let head := [EvLog (LogFetching (i / BATCH_SIZE + 1)); EvCall repositories] in
  fetchStarCounts env repositories (add_events st head) = (st1, o) ->
  exists fevs,
    st1 = add_events st (head ++ fevs) /\
    writes_of fevs = [] /\ calls_of fevs = [] /\
    match o with
    | Ok starCounts =>
        turn_state env i st =
          mkState (apply_writes (files st) (writes_of (batch_events starCounts 0 batch)))
                  (take i (projects st) ++ batch_after starCounts 0 batch
                     ++ drop (i + BATCH_SIZE) (projects st))
                  (totalUpdated st + length (writes_of (batch_events starCounts 0 batch)))
                  (trace st1 ++ batch_events starCounts 0 batch
                     ++ sleep_events i (length (projects st)))
    | Throw e =>
        turn_state env i st =
          add_events st1 (EvLog (LogBatchFailed e) :: sleep_events i (length (projects st)))
    | _ => False
    end.
Proof.
  intros batch repositories head Hfetch.
  rewrite fetchStarCounts_run in Hfetch.
  assert (Hcount : count_posts (trace (add_events st head)) = count_posts (trace st))
    by apply count_posts_call.
  rewrite Hcount in Hfetch. injection Hfetch as <- <-.
  exists (fst (fetch_plan env (count_posts (trace st)) repositories)).
  destruct (fetch_plan_quiet env (count_posts (trace st)) repositories) as (Hw & Hc).
  split; [apply add_events_app|]. split; [exact Hw|]. split; [exact Hc|].
  unfold turn_state. fold batch. fold repositories. fold head.
  destruct (snd (fetch_plan env (count_posts (trace st)) repositories)) as [cs|e| |] eqn:Ho.
  - unfold add_events. cbn [trace]. rewrite <- !app_assoc. reflexivity.
  - rewrite add_events_app. unfold add_events. cbn [files projects totalUpdated trace].
    rewrite <- !app_assoc. reflexivity.
  - destruct (fetch_plan_outcome env (count_posts (trace st)) repositories)
      as [[cs H]|[e H]]; congruence.
  - destruct (fetch_plan_outcome env (count_posts (trace st)) repositories)
      as [[cs H]|[e H]]; congruence.
Qed.

(** C10: in the turn of a batch, nothing is written before the call of the
    client returns, and no request is sent after it; when the call throws
    (transport failure, non-success status, or any other error of the
    client), the turn writes no file at all: the disk, the records and the
    counter are as before, the failure is logged, and the turn ends
    normally. *)
Theorem C10_failed_query_writes_nothing env i st st1 o :
  i <= length (projects st) ->
  Forall not_null (slice i (i + BATCH_SIZE) (projects st)) ->
  fetchStarCounts env (map repository_of (slice i (i + BATCH_SIZE) (projects st)))
    (call_state i st) = (st1, o) ->
  exists st' after,
    batch_turn env i st = (st', Ok tt) /\
    writes_of (events_since st st1) = [] /\
    trace st' = trace st1 ++ after /\
    posts_of after = [] /\
    (forall e, o = Throw e ->
       files st' = files st /\
       projects st' = projects st /\
       totalUpdated st' = totalUpdated st /\
       writes_of (events_since st st') = [] /\
       In (EvLog (LogBatchFailed e)) after).
Proof.
  intros Hi Hnn Hfetch.
  destruct (turn_state_cases env i st st1 o Hfetch) as (fevs & Hst1 & Hw & Hc & Hcase).
  exists (turn_state env i st).
  assert (Hsince : writes_of (events_since st st1) = []).
  { rewrite Hst1, events_since_add, writes_of_app, Hw. reflexivity. }
  destruct o as [cs|e| |]; try contradiction.
  - exists (batch_events cs 0 (slice i (i + BATCH_SIZE) (projects st))
             ++ sleep_events i (length (projects st))).
    split; [apply batch_turn_run; assumption|]. split; [exact Hsince|].
    split; [rewrite Hcase; reflexivity|].
    split; [|intros e He; discriminate].
    rewrite posts_of_app, sleep_events_quiet_posts.
    destruct (batch_events_quiet cs 0 (slice i (i + BATCH_SIZE) (projects st))) as (_ & ->).
    reflexivity.
  - exists (EvLog (LogBatchFailed e) :: sleep_events i (length (projects st))).
    split; [apply batch_turn_run; assumption|]. split; [exact Hsince|].
    split; [rewrite Hcase; reflexivity|].
    split; [rewrite posts_of_cons_quiet by reflexivity; apply sleep_events_quiet_posts|].
    intros e' He'. injection He' as <-.
    rewrite Hcase, Hst1, add_events_app.
    split; [reflexivity|]. split; [reflexivity|]. split; [reflexivity|].
    split; [|left; reflexivity].
    rewrite events_since_add, !writes_of_app, Hw.
    change (writes_of (EvLog (LogBatchFailed e) :: sleep_events i (length (projects st))))
      with (writes_of (sleep_events i (length (projects st)))).
    rewrite sleep_events_quiet_writes. reflexivity.
Qed.

Lemma C10_failed_query_writes_nothing_witness :
  exists st' after,
    batch_turn offline_env 0 two_state = (st', Ok tt) /\
    writes_of (events_since two_state
                 (fst (fetchStarCounts offline_env (map repository_of two_projects)
                         (call_state 0 two_state)))) = [] /\
    trace st' = trace (fst (fetchStarCounts offline_env (map repository_of two_projects)
                              (call_state 0 two_state))) ++ after /\
    posts_of after = [] /\
    (forall e, @Throw (list jsval) FetchFailed = Throw e ->
       files st' = files two_state /\
       projects st' = projects two_state /\
       totalUpdated st' = totalUpdated two_state /\
       writes_of (events_since two_state st') = [] /\
       In (EvLog (LogBatchFailed e)) after).
Proof.
  apply (C10_failed_query_writes_nothing offline_env 0 two_state
           (fst (fetchStarCounts offline_env (map repository_of two_projects)
                   (call_state 0 two_state)))
           (Throw FetchFailed)).
  - cbn. lia.
  - repeat constructor.
  - reflexivity.
Defined.





(** ** The whole run *)

Lemma loaded_cons env disk dir f rest :
  loaded env disk dir (f :: rest) =
    match load_one env disk dir f with
    | Some p => p :: loaded env disk dir rest
    | None => loaded env disk dir rest
    end.
Proof. reflexivity. Qed.

Lemma load_events_cons env disk dir f rest :
  load_events env disk dir (f :: rest) =
    match load_one env disk dir f with
    | Some _ => load_events env disk dir rest
    | None => EvLog (LogCouldNotReadJson f) :: load_events env disk dir rest
    end.
Proof.
  unfold load_events. cbn [omap list_omap].
  destruct (load_one env disk dir f); reflexivity.
Qed.

Lemma load_projects_run env dir : forall folders st,
  load_projects env dir folders st =
    (mkState (files st)
             (projects st ++ loaded env (files st) dir folders)
             (totalUpdated st)
             (trace st ++ load_events env (files st) dir folders),
     Ok tt).
Proof.
  induction folders as [|f rest IH]; intros st.
  - cbn. mrun. rewrite !app_nil_r. destruct st; reflexivity.
  - cbn [load_projects]. rewrite loaded_cons, load_events_cons.
    unfold load_one, bind at 1, try_catch, bind at 1, readFileSync.
    destruct (files st !! json_path dir f) as [raw|] eqn:Hraw.
    + unfold bind at 1. unfold parse.
      destruct (JSON_parse env raw) as [v|] eqn:Hv; mrun; rewrite IH;
        cbn [files projects totalUpdated trace];
        rewrite <- !app_assoc; reflexivity.
    + mrun. rewrite IH. cbn [files projects totalUpdated trace].
      rewrite <- !app_assoc. reflexivity.
Qed.

Lemma scan_outcome env dir :
  (exists folders, scan env dir = Ok folders) \/ scan env dir = Throw IOError.
Proof.
  unfold scan. destruct (readdirSync env dir) as [names|]; [|right; reflexivity].
  induction names as [|n names IH]; cbn [filter_directories]; [left; eauto|].
  destruct (isDirectory env (path_join dir n)) as [d|]; [|right; reflexivity].
  destruct IH as [[ds ->]| ->]; [left; eauto|right; reflexivity].
Qed.

Lemma has_null_false ps : has_null ps = false -> Forall not_null ps.
Proof.
  unfold has_null. induction ps as [|p ps IH]; cbn; intros H; [constructor|].
  apply orb_false_iff in H. destruct H as (Hp & Hps). constructor; auto.
Qed.

Lemma has_null_true ps :
  has_null ps = true -> Exists (fun p => nullish (data p) = true) ps.
Proof.
  unfold has_null. induction ps as [|p ps IH]; cbn; intros H; [discriminate|].
  apply orb_true_iff in H. destruct H as [Hp|Hps].
  - constructor. exact Hp.
  - apply Exists_cons_tl. auto.
Qed.

(** The state in which the batch loop starts. *)
Lemma main_run env st :
  main env st =
    match scan env (projects_dir env) with
    | Ok folders =>
        let loop :=
          main_loop env
            (length (loaded env (files st) (projects_dir env) (sort folders))) 0
            (mkState (files st)
                     (loaded env (files st) (projects_dir env) (sort folders))
                     0
                     (trace st ++ EvLog (LogUpdating (length folders))
                        :: load_events env (files st) (projects_dir env) (sort folders))) in
        match snd loop with
        | Ok _ => (add_events (fst loop) [EvLog (LogUpdated (totalUpdated (fst loop)))], Ok tt)
        | Throw e => (fst loop, Throw e)
        | Exit c => (fst loop, Exit c)
        | OutOfFuel => (fst loop, OutOfFuel)
        end
    | _ => (add_events st [EvLog LogCouldNotReadDir], Exit 1)
    end.
Proof.
  unfold main. fold (projects_dir env).
  unfold bind at 1. unfold try_catch, lift.
  destruct (scan_outcome env (projects_dir env)) as [[folders ->]| ->]; [|reflexivity].
  unfold bind at 1. unfold emit at 1, modify at 1.
  unfold bind at 1. unfold set_projects at 1, modify at 1.
  cbn [files projects totalUpdated trace].
  unfold bind at 1. rewrite load_projects_run. cbn [files projects totalUpdated trace app].
  unfold bind at 1. unfold set_totalUpdated at 1, modify at 1.
  cbn [files projects totalUpdated trace].
  unfold bind at 1. unfold gets at 1. cbn [files projects totalUpdated trace].
  unfold bind at 1. rewrite <- app_assoc. cbn [app].
  destruct (main_loop env _ 0 _) as [st' [[]|e|c|]]; reflexivity.
Qed.

(** C9, as the code has it: the process exits with status 1 when the
    credential variable is missing or empty, when the projects directory
    cannot be scanned, and also when a loaded descriptor is the JSON value
    [null] (the [TypeError] it raises escapes [main] and the top-level
    handler turns it into [process.exit(1)]); in every other case the run
    goes to its end with status 0, whatever the service answers and however
    many descriptor files could not be read. *)
Theorem C9_exit_status env disk :
  exit_status (snd (script env (initial_state disk))) =
    Some (if token_present env then
            match scan env (projects_dir env) with
            | Ok folders =>
                if has_null (loaded env disk (projects_dir env) (sort folders))
                then 1 else 0
            | _ => 1
            end
          else 1).
Proof.
  unfold script. destruct (token_present env); [|reflexivity].
  unfold try_catch. rewrite main_run.
  destruct (scan_outcome env (projects_dir env)) as [[folders ->]| ->]; [|reflexivity].
  cbn [initial_state files trace app].
  set (ps := loaded env disk (projects_dir env) (sort folders)).
  set (st0 := mkState disk ps 0 _).
  destruct (has_null ps) eqn:Hnull.
  - apply has_null_true in Hnull.
    destruct (main_loop_crash env (length ps) 0 st0) as (st' & Hrun & _).
    + rewrite drop_0. exact Hnull.
    + cbn. lia.
    + cbv zeta. rewrite Hrun. reflexivity.
  - apply has_null_false in Hnull.
    cbv zeta. rewrite main_loop_run; [reflexivity| |cbn; lia].
    rewrite drop_0. exact Hnull.
Qed.

(** C9, as the specification states it, fails: with the credential set and
    the directory readable, a descriptor file that holds [null] ends the
    process with status 1. *)
Lemma C9_null_descriptor_exits_1 :
  token_present null_env = true /\
  scan null_env (projects_dir null_env) = Ok ["x"] /\
  loaded null_env null_disk (projects_dir null_env) ["x"]
    = [mkProject "x" "/repo/projects/x/project.json" JNull] /\
  exit_status (snd (script null_env (initial_state null_disk))) = Some 1 /\
  ~ (forall env disk,
       exit_status (snd (script env (initial_state disk))) = Some 1 <->
       (token_present env = false \/
        forall folders, scan env (projects_dir env) <> Ok folders)).
Proof.
  assert (Hrun : exit_status (snd (script null_env (initial_state null_disk))) = Some 1)
    by (vm_compute; reflexivity).
  split; [reflexivity|]. split; [reflexivity|]. split; [vm_compute; reflexivity|].
  split; [exact Hrun|].
  intros H. apply (H null_env null_disk) in Hrun.
  destruct Hrun as [Htok|Hscan]; [discriminate Htok|].
  apply (Hscan ["x"]). reflexivity.
Qed.

(** ** What a rewrite changes *)





Lemma In_write evs p c : In (EvWrite p c) evs <-> In (p, c) (writes_of evs).
Proof.
  unfold writes_of. induction evs as [|e evs IH]; [reflexivity|].
  destruct e; cbn [omap list_omap In]; rewrite <- IH;
    (split; [intros [H|H]; [try discriminate H|]|]); try tauto.
  - injection H as <- <-. left. reflexivity.
  - intros [H|H]; [injection H as <- <-; left; reflexivity|right; exact H].
Qed.










(** ** Running twice *)
























(** ** The counts the client returns *)

Lemma alias_inj j j' : alias j = alias j' -> j = j'.
Proof.
  unfold alias. intros H. cbn in H. repeat (injection H as H).
  apply pretty_nat_inj. exact H.
Qed.

(** When at least one descriptor of the batch is in the query and the
    service answers with a body, the client returns one count per
    descriptor, in the order of the batch: position [j] is what the body
    holds under the alias of descriptor [j], or zero. *)
Lemma fetchStarCounts_aligned env repos st st' cs mapped :
  fetchStarCounts env repos st = (st', Ok cs) ->
  map_queries 0 repos = Ok mapped ->
  filter_Boolean mapped <> [] ->
  exists ok status text result,
    service env (count_posts (trace st))
      (mkRequest (bearer env) (composite_query (filter_Boolean mapped)))
      = FetchResolved ok status text (Some result) /\
    length cs = length repos /\
    forall j, j < length repos -> cs !! j = Some (star_of result j).
Proof.
  intros Hfetch Hmap Hne. rewrite fetchStarCounts_run in Hfetch.
  injection Hfetch as _ Hplan. unfold fetch_plan in Hplan. rewrite Hmap in Hplan.
  destruct (length (filter_Boolean mapped) =? 0) eqn:Hlen.
  { apply Nat.eqb_eq in Hlen. destruct (filter_Boolean mapped); [congruence|discriminate]. }
  destruct (service env _ _) as [|ok status text json] eqn:Hsvc; [discriminate|].
  destruct ok; [|destruct text; discriminate].
  destruct json as [result|]; [|discriminate].
  destruct (nullish result); [discriminate|].
  injection Hplan as <-.
  exists true, status, text, result. split; [reflexivity|].
  split; [rewrite length_map, length_seq; reflexivity|].
  intros j Hj. rewrite list_lookup_fmap, lookup_seq_lt by exact Hj. reflexivity.
Qed.

(** A descriptor left out of the query gets zero when the body holds
    nothing under its alias. *)
Lemma star_of_missing result j :
  nullish (opt_member (get_member result "data") (alias j)) = true ->
  star_of result j = JNum 0.
Proof.
  unfold star_of. intros H.
  destruct (opt_member (get_member result "data") (alias j)); try discriminate; reflexivity.
Qed.

(** When no descriptor of the batch is in the query, the client returns the
    empty list without a request. *)
Lemma fetchStarCounts_none_included env repos st mapped :
  map_queries 0 repos = Ok mapped ->
  filter_Boolean mapped = [] ->
  fetchStarCounts env repos st = (st, Ok []).
Proof.
  intros Hmap Hnone. rewrite fetchStarCounts_run. unfold fetch_plan.
  rewrite Hmap, Hnone. cbn. rewrite add_events_nil. reflexivity.
Qed.

(** C1 at the failing input: for a batch of one descriptor whose URL has a
    single component, the client returns no count at all, so position 0 of
    the result does not exist and [starCounts[0]] is [undefined], not zero. *)
Theorem C1_all_malformed_returns_empty env st :
  fetchStarCounts env [mkRepository "foo" (JStr "https://github.com/acme")] st
    = (st, Ok []) /\
  stars_at [] 0 = JUndefined /\
  length (@nil jsval) <> length [mkRepository "foo" (JStr "https://github.com/acme")].
Proof.
  split; [|split; [reflexivity|discriminate]].
  eapply fetchStarCounts_none_included; reflexivity.
Qed.

(** C2 at the failing input: in a batch where no URL has the owner/name
    shape, the resolved count of every descriptor is [undefined]; the
    descriptor with ten stars recorded is rewritten without a [stars]
    member, and the descriptor without a recorded count is not rewritten,
    although zero differs from its absent value. *)
Theorem C2_all_malformed_batch env :
  let st' := fst (batch_turn env 0 malformed_state) in
  snd (batch_turn env 0 malformed_state) = Ok tt /\
  posts_of (events_since malformed_state st') = [] /\
  writes_of (events_since malformed_state st') =
    [("/repo/projects/old/project.json",
      file_text (JObj [("github_repo", JStr "https://github.com/acme")]))] /\
  map (fun p => get_member (data p) "stars") (projects st') = [JUndefined; JUndefined] /\
  In (EvLog (LogStars "old" JUndefined)) (events_since malformed_state st') /\
  In (EvLog (LogNoChange "new" JUndefined)) (events_since malformed_state st') /\
  strict_neq (get_member (data (mkProject "new" "/repo/projects/new/project.json"
                (JObj [("github_repo", JStr "https://example.org/a/b/c")]))) "stars")
             (JNum 0) = true.
Proof.
  rewrite batch_turn_run by (try (cbn; lia); repeat constructor).
  cbn [fst snd]. split; [reflexivity|].
  assert (Hplan : forall n, fetch_plan env n (map repository_of
            (slice 0 (0 + BATCH_SIZE) (projects malformed_state))) = ([], Ok [])).
  { intros n. reflexivity. }
  unfold turn_state. rewrite Hplan. cbn [snd fst].
  unfold events_since. cbn [trace malformed_state length drop app projects].
  repeat split; try reflexivity.
  - right. right. right. left. reflexivity.
  - right. right. right. right. left. reflexivity.
Qed.


(** ** Indentation of the printed text *)

Lemma append_cons x a b : String x a +:+ b = String x (a +:+ b).
Proof. reflexivity. Qed.

Lemma append_nil b : "" +:+ b = b.
Proof. reflexivity. Qed.

Lemma string_app_assoc a b c : (a +:+ b) +:+ c = a +:+ (b +:+ c).
Proof.
  induction a as [|x a IH]; [reflexivity|].
  rewrite !append_cons, IH. reflexivity.
Qed.


Lemma prefix_app a b : String.prefix a (a +:+ b) = true.
Proof.
  induction a as [|x a IH]; [destruct b; reflexivity|].
  rewrite append_cons. cbn [String.prefix].
  destruct (ascii_dec x x); [exact IH|congruence].
Qed.





















(** ** Failures of the service, and the specification's example *)

(** A rejected request and a non-success status both make the client
    throw, whenever the batch has a descriptor in the query. *)
Lemma transport_failure_throws env repos st mapped :
  map_queries 0 repos = Ok mapped ->
  filter_Boolean mapped <> [] ->
  service env (count_posts (trace st))
    (mkRequest (bearer env) (composite_query (filter_Boolean mapped))) = FetchRejected ->
  snd (fetchStarCounts env repos st) = Throw FetchFailed.
Proof.
  intros Hmap Hne Hsvc. rewrite fetchStarCounts_run. cbn [snd].
  unfold fetch_plan. rewrite Hmap.
  destruct (length (filter_Boolean mapped) =? 0) eqn:Hlen.
  { apply Nat.eqb_eq in Hlen. destruct (filter_Boolean mapped); [congruence|discriminate]. }
  rewrite Hsvc. reflexivity.
Qed.

Lemma bad_status_throws env repos st mapped status errorText json :
  map_queries 0 repos = Ok mapped ->
  filter_Boolean mapped <> [] ->
  service env (count_posts (trace st))
    (mkRequest (bearer env) (composite_query (filter_Boolean mapped)))
    = FetchResolved false status (Some errorText) json ->
  snd (fetchStarCounts env repos st) = Throw (ApiError status errorText).
Proof.
  intros Hmap Hne Hsvc. rewrite fetchStarCounts_run. cbn [snd].
  unfold fetch_plan. rewrite Hmap.
  destruct (length (filter_Boolean mapped) =? 0) eqn:Hlen.
  { apply Nat.eqb_eq in Hlen. destruct (filter_Boolean mapped); [congruence|discriminate]. }
  rewrite Hsvc. reflexivity.
Qed.

(** The example of the specification: [foo] has ten stars recorded and the
    service reports ten, [bar] has none recorded and the service reports
    three.  The run ends with status 0 and writes one file, that of [bar],
    now with three stars; the file of [foo] is as it was. *)
Example specification_example :
  let run := script example_env (initial_state two_disk) in
  exit_status (snd run) = Some 0 /\
  writes_of (trace (fst run)) =
    [("/repo/projects/bar/project.json",
      file_text (example_record "bar" [("stars", JNum 3)]))] /\
  files (fst run) !! "/repo/projects/foo/project.json"
    = two_disk !! "/repo/projects/foo/project.json" /\
  totalUpdated (fst run) = 1.
Proof. vm_compute. repeat split; reflexivity. Qed.

(** * Further properties of the script *)

(** ** URLs *)

Lemma split_length sep : forall s, length (split sep s) = S (count_char sep s).
Proof.
  induction s as [|x s IH]; [reflexivity|].
  cbn [split count_char]. destruct (Ascii.eqb x sep).
  - cbn [length]. rewrite IH. reflexivity.
  - destruct (split sep s) as [|y ys]; [discriminate IH|]. exact IH.
Qed.

Lemma split_no_sep sep : forall s, count_char sep s = 0 -> split sep s = [s].
Proof.
  induction s as [|x s IH]; intros H; [reflexivity|].
  cbn [split count_char] in *. destruct (Ascii.eqb x sep); [discriminate|].
  rewrite IH by exact H. reflexivity.
Qed.

Lemma split_app_sep sep : forall a b,
  count_char sep a = 0 ->
  split sep (a +:+ String sep b) = a :: split sep b.
Proof.
  induction a as [|x a IH]; intros b H.
  - rewrite append_nil. cbn [split]. rewrite Ascii.eqb_refl. reflexivity.
  - rewrite append_cons. cbn [split count_char] in *.
    destruct (Ascii.eqb x sep); [discriminate|].
    rewrite IH by exact H. reflexivity.
Qed.

Lemma count_char_app c a b : count_char c (a +:+ b) = count_char c a + count_char c b.
Proof.
  induction a as [|x a IH]; [reflexivity|].
  rewrite append_cons. cbn [count_char]. rewrite IH. lia.
Qed.

Lemma string_drop_app a b : string_drop (String.length a) (a +:+ b) = b.
Proof. induction a as [|x a IH]; [destruct b; reflexivity|]. exact IH. Qed.

Lemma replace_unfold pat rep s :
  replace pat rep s =
    if String.prefix pat s then rep +:+ string_drop (String.length pat) s
    else match s with
         | "" => ""
         | String c s' => String c (replace pat rep s')
         end.
Proof. destruct s; reflexivity. Qed.

Lemma replace_at_start pat rep s : replace pat rep (pat +:+ s) = rep +:+ s.
Proof. rewrite replace_unfold, prefix_app, string_drop_app. reflexivity. Qed.

(** X1: a URL made of the host prefix, an owner and a name without slash
    is put in the query, with exactly that owner and that name, whatever
    else the two contain. *)
Theorem canonical_url_is_queried idx s owner name :
  count_char "/" owner = 0 ->
  count_char "/" name = 0 ->
  build_query idx (mkRepository s (JStr (host_prefix +:+ owner +:+ "/" +:+ name)))
    = Ok (Some (query_line idx owner name)).
Proof.
  intros Ho Hn. rewrite build_query_line. unfold url_parts.
  change "https://github.com/" with host_prefix.
  rewrite replace_at_start, append_nil.
  change (owner +:+ "/" +:+ name) with (owner +:+ String "/" name).
  rewrite split_app_sep by exact Ho. rewrite split_no_sep by exact Hn. reflexivity.
Qed.

Lemma canonical_url_is_queried_witness :
  build_query 3 (mkRepository "foo" (JStr (host_prefix +:+ "acme" +:+ "/" +:+ "foo.js")))
    = Ok (Some (query_line 3 "acme" "foo.js")).
Proof. apply (canonical_url_is_queried 3 "foo" "acme" "foo.js"); reflexivity. Defined.

(** X2: a descriptor is in the query exactly when one slash is left in its
    URL once the first occurrence of the host prefix is removed.  So a URL
    that goes on after the name (a trailing slash, a further path segment)
    is left out, and its descriptor gets no count from the service. *)
Theorem included_iff_one_slash idx s u :
  (included idx (mkRepository s (JStr u)) = true <->
     count_char "/" (replace host_prefix "" u) = 1) /\
  (forall owner name rest,
     build_query idx
       (mkRepository s (JStr (host_prefix +:+ owner +:+ "/" +:+ name +:+ "/" +:+ rest)))
       = Ok None).
Proof.
  split.
  - unfold included. rewrite build_query_line.
    pose proof (split_length "/" (replace host_prefix "" u)) as Hlen.
    unfold url_parts. change "https://github.com/" with host_prefix.
    destruct (split "/" (replace host_prefix "" u)) as [|a [|b [|c l]]];
      cbn [length] in Hlen; split; intros H; try discriminate; try reflexivity; lia.
  - intros owner name rest. rewrite build_query_line.
    pose proof (split_length "/"
      (replace host_prefix "" (host_prefix +:+ owner +:+ "/" +:+ name +:+ "/" +:+ rest)))
      as Hlen.
    rewrite replace_at_start, append_nil in Hlen.
    rewrite !count_char_app in Hlen. cbn [count_char Ascii.eqb Bool.eqb] in Hlen.
    unfold url_parts. change "https://github.com/" with host_prefix.
    rewrite replace_at_start, append_nil.
    destruct (split "/" (owner +:+ "/" +:+ name +:+ "/" +:+ rest)) as [|a [|b [|c l]]];
      cbn [length] in Hlen; try reflexivity; lia.
Qed.

(** ** The order of loading *)



(** ** More on [fetchStarCounts] *)

Lemma star_of_present result j d rd n :
  get_member result "data" = JObj d ->
  assoc (alias j) d = Some (JObj rd) ->
  assoc "stargazerCount" rd = Some (JNum n) ->
  star_of result j = JNum n.
Proof.
  intros Hd Hj Hn. unfold star_of. rewrite Hd.
  unfold opt_member at 2. cbn [nullish get_member]. rewrite Hj. cbn [default from_option].
  unfold id, opt_member. cbn [nullish get_member]. rewrite Hn. reflexivity.
Qed.

(** X4: when at least one descriptor of the batch is in the query and the
    client returns counts, there is one count per descriptor, in the order
    of the batch.  The count at position [j] is the [stargazerCount] the
    response holds under the alias [repo<j>], zero when the response holds
    nothing there, and no two positions share an alias. *)
Theorem counts_follow_batch_order env repos st st' cs mapped :
  fetchStarCounts env repos st = (st', Ok cs) ->
  map_queries 0 repos = Ok mapped ->
  filter_Boolean mapped <> [] ->
  length cs = length repos /\
  exists result ok status text,
    service env (count_posts (trace st))
      (mkRequest (bearer env) (composite_query (filter_Boolean mapped)))
      = FetchResolved ok status text (Some result) /\
    forall j, j < length repos ->
      (forall d rd n,
         get_member result "data" = JObj d ->
         assoc (alias j) d = Some (JObj rd) ->
         assoc "stargazerCount" rd = Some (JNum n) ->
         cs !! j = Some (JNum n)) /\
      (nullish (opt_member (get_member result "data") (alias j)) = true ->
       cs !! j = Some (JNum 0)) /\
      (forall j', alias j = alias j' -> j = j').
Proof.
  intros Hfetch Hmap Hne.
  destruct (fetchStarCounts_aligned env repos st st' cs mapped Hfetch Hmap Hne)
    as (ok & status & text & result & Hsvc & Hlen & Hcs).
  split; [exact Hlen|]. exists result, ok, status, text. split; [exact Hsvc|].
  intros j Hj. rewrite (Hcs j Hj). split; [|split].
  - intros d rd n Hd Hrd Hn. f_equal. eapply star_of_present; eassumption.
  - intros Hnull. f_equal. apply star_of_missing. exact Hnull.
  - intros j'. apply alias_inj.
Qed.

Lemma counts_follow_batch_order_witness :
  let repos := map repository_of two_projects in
  length [JNum 3; JNum 10] = length repos /\
  exists result ok status text,
    service example_env (count_posts (trace two_state))
      (mkRequest (bearer example_env)
         (composite_query
            (filter_Boolean [Some (query_line 0 "acme" "bar"); Some (query_line 1 "acme" "foo")])))
      = FetchResolved ok status text (Some result) /\
    forall j, j < length repos ->
      (forall d rd n,
         get_member result "data" = JObj d ->
         assoc (alias j) d = Some (JObj rd) ->
         assoc "stargazerCount" rd = Some (JNum n) ->
         [JNum 3; JNum 10] !! j = Some (JNum n)) /\
      (nullish (opt_member (get_member result "data") (alias j)) = true ->
       [JNum 3; JNum 10] !! j = Some (JNum 0)) /\
      (forall j', alias j = alias j' -> j = j').
Proof.
  intros repos.
  apply (counts_follow_batch_order example_env repos two_state
           (fst (fetchStarCounts example_env repos two_state)) [JNum 3; JNum 10]
           [Some (query_line 0 "acme" "bar"); Some (query_line 1 "acme" "foo")]).
  - vm_compute. reflexivity.
  - vm_compute. reflexivity.
  - discriminate.
Defined.

Lemma filter_Boolean_length qs : length (filter_Boolean qs) <= length qs.
Proof.
  unfold filter_Boolean. induction qs as [|[q|] qs IH]; cbn; lia.
Qed.

Lemma fetch_plan_posts env n repos :
  posts_of (fst (fetch_plan env n repos)) = [] \/
  exists r, posts_of (fst (fetch_plan env n repos)) = [r] /\
            well_formed_post env (length repos) r.
Proof.
  unfold fetch_plan.
  destruct (map_queries 0 repos) as [mapped| | |] eqn:Hmap; try (left; reflexivity).
  destruct (length (filter_Boolean mapped) =? 0) eqn:Hlen; [left; reflexivity|].
  apply Nat.eqb_neq in Hlen.
  assert (Hwf : well_formed_post env (length repos)
                  (mkRequest (bearer env) (composite_query (filter_Boolean mapped)))).
  { split; [reflexivity|]. exists (filter_Boolean mapped). split; [reflexivity|].
    split; [lia|]. rewrite <- (map_queries_length _ _ _ Hmap).
    apply filter_Boolean_length. }
  right. eexists. split; [|exact Hwf].
  destruct (service env n _) as [|[] status [text|] [result|]]; try reflexivity;
    destruct (nullish result); try reflexivity;
    destruct (truthy (get_member result "errors")); reflexivity.
Qed.






(** X7: errors reported next to the data do not fail the call: when the
    service answers with a success status and a body that is not [null],
    the client logs the [errors] member if it is truthy and returns one
    count per descriptor, zero for each when the body has no [data].  A
    body that is the value [null] makes the call throw. *)
Theorem partial_errors_do_not_fail env repos st mapped status text result :
  map_queries 0 repos = Ok mapped ->
  filter_Boolean mapped <> [] ->
  service env (count_posts (trace st))
    (mkRequest (bearer env) (composite_query (filter_Boolean mapped)))
    = FetchResolved true status text (Some result) ->
  let run := fetchStarCounts env repos st in
  (nullish result = true -> snd run = Throw TypeError) /\
  (nullish result = false ->
     snd run = Ok (map (star_of result) (seq 0 (length repos))) /\
     logs_of (events_since st (fst run)) =
       (if truthy (get_member result "errors")
        then [LogGraphQLErrors (get_member result "errors")] else []) /\
     (nullish (get_member result "data") = true ->
      snd run = Ok (replicate (length repos) (JNum 0)))).
Proof.
  intros Hmap Hne Hsvc run. unfold run. rewrite fetchStarCounts_run.
  cbn [fst snd]. rewrite events_since_add.
  unfold fetch_plan. rewrite Hmap.
  destruct (length (filter_Boolean mapped) =? 0) eqn:Hlen.
  { apply Nat.eqb_eq in Hlen. destruct (filter_Boolean mapped); [congruence|discriminate]. }
  rewrite Hsvc. split; intros Hnull; rewrite Hnull; [reflexivity|].
  cbn [fst snd]. split; [reflexivity|]. split.
  - destruct (truthy (get_member result "errors")); reflexivity.
  - intros Hdata. f_equal. generalize 0.
    induction (length repos) as [|n IH]; intros k; [reflexivity|].
    cbn [seq map replicate]. rewrite IH. f_equal.
    unfold star_of, opt_member. rewrite Hdata. reflexivity.
Qed.

Lemma partial_errors_do_not_fail_witness :
  let repos := map repository_of two_projects in
  let run := fetchStarCounts partial_env repos two_state in
  (nullish partial_response = true -> snd run = Throw TypeError) /\
  (nullish partial_response = false ->
     snd run = Ok (map (star_of partial_response) (seq 0 (length repos))) /\
     logs_of (events_since two_state (fst run)) =
       (if truthy (get_member partial_response "errors")
        then [LogGraphQLErrors (get_member partial_response "errors")] else []) /\
     (nullish (get_member partial_response "data") = true ->
      snd run = Ok (replicate (length repos) (JNum 0)))).
Proof.
  intros repos.
  apply (partial_errors_do_not_fail partial_env repos two_state
           [Some (query_line 0 "acme" "bar"); Some (query_line 1 "acme" "foo")]
           200 (Some "") partial_response).
  - vm_compute. reflexivity.
  - discriminate.
  - reflexivity.
Defined.

(** ** The loader *)

Lemma load_one_folder env disk dir f p :
  load_one env disk dir f = Some p ->
  folder p = f /\ path p = json_path dir f /\
  exists raw, disk !! json_path dir f = Some raw /\ JSON_parse env raw = Some (data p).
Proof.
  unfold load_one. intros H.
  destruct (disk !! json_path dir f) as [raw|]; [|discriminate].
  destruct (JSON_parse env raw) as [v|] eqn:Hv; [|discriminate].
  injection H as <-. cbn. eauto.
Qed.

Lemma load_one_failure env disk dir f :
  load_one env disk dir f = None ->
  disk !! json_path dir f = None \/
  exists raw, disk !! json_path dir f = Some raw /\ JSON_parse env raw = None.
Proof.
  unfold load_one. intros H.
  destruct (disk !! json_path dir f) as [raw|]; [|left; reflexivity].
  destruct (JSON_parse env raw) as [v|] eqn:Hv; [discriminate|]. right. eauto.
Qed.

(** X8: the loader never throws and never touches the disk.  It goes
    through the folders in the order given; a folder whose [project.json]
    can be read and parsed becomes a descriptor with that folder, that path
    and the parsed record, every other folder gets one warning and is left
    out, and the order of the folders is kept on both sides. *)
Theorem loader_skips_failures env dir folders st :
  exists st' new skipped,
    load_projects env dir folders st = (st', Ok tt) /\
    files st' = files st /\
    totalUpdated st' = totalUpdated st /\
    projects st' = projects st ++ new /\
    events_since st st' = map (fun f => EvLog (LogCouldNotReadJson f)) skipped /\
    map folder new `sublist_of` folders /\
    skipped `sublist_of` folders /\
    length new + length skipped = length folders /\
    Forall (fun p =>
              path p = json_path dir (folder p) /\
              exists raw, files st !! path p = Some raw /\
                          JSON_parse env raw = Some (data p)) new /\
    Forall (fun f =>
              files st !! json_path dir f = None \/
              exists raw, files st !! json_path dir f = Some raw /\
                          JSON_parse env raw = None) skipped.
Proof.
  rewrite load_projects_run.
  exists (mkState (files st) (projects st ++ loaded env (files st) dir folders)
            (totalUpdated st) (trace st ++ load_events env (files st) dir folders)).
  exists (loaded env (files st) dir folders).
  assert (Hspec : exists skipped,
    load_events env (files st) dir folders
      = map (fun f => EvLog (LogCouldNotReadJson f)) skipped /\
    map folder (loaded env (files st) dir folders) `sublist_of` folders /\
    skipped `sublist_of` folders /\
    length (loaded env (files st) dir folders) + length skipped = length folders /\
    Forall (fun p =>
              path p = json_path dir (folder p) /\
              exists raw, files st !! path p = Some raw /\
                          JSON_parse env raw = Some (data p))
           (loaded env (files st) dir folders) /\
    Forall (fun f =>
              files st !! json_path dir f = None \/
              exists raw, files st !! json_path dir f = Some raw /\
                          JSON_parse env raw = None) skipped).
  { induction folders as [|f rest IH].
    - exists []. repeat split; constructor.
    - destruct IH as (skipped & Hev & Hsub & Hskip & Hlen & Hnew & Hfail).
      rewrite loaded_cons, load_events_cons.
      destruct (load_one env (files st) dir f) as [p|] eqn:Hone.
      + destruct (load_one_folder _ _ _ _ _ Hone) as (Hf & Hp & raw & Hraw & Hparse).
        exists skipped. split; [exact Hev|]. cbn [map length].
        split; [rewrite Hf; apply sublist_skip; exact Hsub|].
        split; [apply sublist_cons; exact Hskip|]. split; [lia|].
        split; [|exact Hfail]. constructor; [|exact Hnew].
        rewrite Hf. split; [exact Hp|]. exists raw. rewrite Hp. auto.
      + exists (f :: skipped). cbn [map length]. rewrite Hev.
        split; [reflexivity|]. split; [apply sublist_cons; exact Hsub|].
        split; [apply sublist_skip; exact Hskip|]. split; [lia|].
        split; [exact Hnew|]. constructor; [|exact Hfail].
        apply load_one_failure. exact Hone. }
  destruct Hspec as (skipped & Hev & Hrest). exists skipped.
  split; [reflexivity|]. split; [reflexivity|]. split; [reflexivity|].
  split; [reflexivity|]. split; [|exact Hrest].
  unfold events_since. cbn [trace]. rewrite drop_app_length. exact Hev.
Qed.

Lemma string_app_inv_tail a b c : a +:+ c = b +:+ c -> a = b.
Proof.
  revert b. induction a as [|x a IH]; intros [|y b] H.
  - reflexivity.
  - exfalso. apply (f_equal String.length) in H.
    rewrite append_nil, append_cons in H. cbn [String.length] in H.
    assert (Hlen : forall u v, String.length (u +:+ v) = String.length u + String.length v).
    { induction u as [|z u IHu]; intros v; [reflexivity|].
      rewrite append_cons. cbn [String.length]. rewrite IHu. reflexivity. }
    rewrite Hlen in H. lia.
  - exfalso. apply (f_equal String.length) in H.
    rewrite append_nil, append_cons in H. cbn [String.length] in H.
    assert (Hlen : forall u v, String.length (u +:+ v) = String.length u + String.length v).
    { induction u as [|z u IHu]; intros v; [reflexivity|].
      rewrite append_cons. cbn [String.length]. rewrite IHu. reflexivity. }
    rewrite Hlen in H. lia.
  - rewrite !append_cons in H. injection H as -> H. f_equal. apply IH. exact H.
Qed.

Lemma json_path_inj dir f1 f2 : json_path dir f1 = json_path dir f2 -> f1 = f2.
Proof.
  unfold json_path, path_join. intros H.
  rewrite !string_app_assoc in H.
  apply (inj (String.append dir)) in H.
  apply (inj (String.append "/")) in H.
  eapply string_app_inv_tail. exact H.
Qed.

Lemma sort_NoDup l : NoDup l -> NoDup (sort l).
Proof. intros H. rewrite sort_perm. exact H. Qed.

Lemma loaded_NoDup env disk dir folders :
  NoDup folders ->
  NoDup (map path (loaded env disk dir folders)) /\
  NoDup (map folder (loaded env disk dir folders)).
Proof.
  intros Hnd.
  induction folders as [|f rest IH]; [split; constructor|].
  apply NoDup_cons in Hnd. destruct Hnd as (Hf & Hrest).
  destruct (IH Hrest) as (IHp & IHf). rewrite loaded_cons.
  destruct (load_one env disk dir f) as [p|] eqn:Hone; [|split; assumption].
  destruct (load_one_folder _ _ _ _ _ Hone) as (Hpf & Hpp & _).
  assert (Hin : forall q, q ∈ loaded env disk dir rest -> folder q ∈ rest /\
                                                        path q = json_path dir (folder q)).
  { intros q Hq. unfold loaded in Hq. apply list_elem_of_omap in Hq.
    destruct Hq as (g & Hg & Hone').
    destruct (load_one_folder _ _ _ _ _ Hone') as (Hqf & Hqp & _).
    rewrite Hqf. split; [exact Hg|exact Hqp]. }
  cbn [map]. split; apply NoDup_cons; split; try assumption.
  - intros Hmem. apply list_elem_of_fmap in Hmem. destruct Hmem as (q & Hq & Hqin).
    destruct (Hin q Hqin) as (Hqrest & Hqpath).
    rewrite Hpp, Hqpath in Hq. apply json_path_inj in Hq. congruence.
  - intros Hmem. apply list_elem_of_fmap in Hmem. destruct Hmem as (q & Hq & Hqin).
    destruct (Hin q Hqin) as (Hqrest & _). congruence.
Qed.

(** X9: two different folders never share a descriptor file, so when the
    directory listing has no name twice, the loader, started as [main]
    starts it (no descriptor yet, the folders sorted), ends with
    descriptors of which no two have the same path and no two the same
    folder. *)
Theorem loaded_paths_distinct env dir folders st :
  NoDup folders ->
  projects st = [] ->
  let st' := fst (load_projects env dir (sort folders) st) in
  NoDup (map path (projects st')) /\ NoDup (map folder (projects st')).
Proof.
  intros Hnd Hempty st'. unfold st'. rewrite load_projects_run. cbn [fst projects].
  rewrite Hempty. cbn [app]. apply loaded_NoDup. apply sort_NoDup. exact Hnd.
Qed.

Lemma loaded_paths_distinct_witness :
  let st' := fst (load_projects example_env "/repo/projects" (sort ["foo"; "bar"])
                    (initial_state two_disk)) in
  NoDup (map path (projects st')) /\ NoDup (map folder (projects st')).
Proof.
  apply (loaded_paths_distinct example_env "/repo/projects" ["foo"; "bar"]
           (initial_state two_disk)).
  - apply NoDup_cons. split; [|apply NoDup_cons; split; [|constructor]].
    + intros H. apply list_elem_of_singleton in H. discriminate H.
    + intros H. inversion H.
  - reflexivity.
Defined.

(** ** What a whole run keeps *)

Lemma run_invariant_refl env st : run_invariant env st st.
Proof.
  exists []. rewrite app_nil_r. cbn. rewrite Nat.add_0_r.
  repeat split; try reflexivity; constructor.
Qed.

Lemma run_invariant_trans env st1 st2 st3 :
  run_invariant env st1 st2 -> run_invariant env st2 st3 -> run_invariant env st1 st3.
Proof.
  intros (e1 & Ht1 & Hf1 & Hn1 & Hp1 & Hd1 & Hw1 & Hq1 & Hc1)
         (e2 & Ht2 & Hf2 & Hn2 & Hp2 & Hd2 & Hw2 & Hq2 & Hc2).
  exists (e1 ++ e2).
  rewrite writes_of_app, posts_of_app, calls_of_app, apply_writes_app, !length_app.
  split; [rewrite Ht2, Ht1, app_assoc; reflexivity|].
  split; [rewrite Hf2, Hf1; reflexivity|].
  split; [rewrite Hn2, Hn1; lia|].
  split; [congruence|]. split; [congruence|].
  split; [|split; [apply Forall_app; split; assumption|lia]].
  apply Forall_app. split; [exact Hw1|]. rewrite <- Hp1. exact Hw2.
Qed.

Lemma run_invariant_log env st l : run_invariant env st (add_events st [EvLog l]).
Proof.
  exists [EvLog l]. cbn. rewrite Nat.add_0_r.
  repeat split; try reflexivity; constructor.
Qed.

Lemma batch_after_paths cs : forall b j,
  map path (batch_after cs j b) = map path b /\
  map folder (batch_after cs j b) = map folder b.
Proof.
  induction b as [|p b IH]; intros j; [split; reflexivity|].
  cbn [batch_after map]. destruct (IH (S j)) as (-> & ->).
  unfold after_update. destruct (differs p (stars_at cs j)); split; reflexivity.
Qed.

Lemma batch_events_paths cs : forall b j,
  Forall (fun w => In (fst w) (map path b)) (writes_of (batch_events cs j b)).
Proof.
  induction b as [|p b IH]; intros j; [constructor|].
  cbn [batch_events]. rewrite writes_of_app. apply Forall_app. split.
  - unfold item_events. destruct (differs p (stars_at cs j)); cbn; repeat constructor.
  - eapply Forall_impl; [apply IH|]. intros w Hw. right. exact Hw.
Qed.

Lemma well_formed_post_le env n m r :
  n <= m -> well_formed_post env n r -> well_formed_post env m r.
Proof.
  intros Hnm (Ha & qs & Hq & Hlen). split; [exact Ha|]. exists qs. split; [exact Hq|lia].
Qed.

Lemma head_events l rs :
  writes_of [EvLog l; EvCall rs] = [] /\ posts_of [EvLog l; EvCall rs] = [] /\
  calls_of [EvLog l; EvCall rs] = [rs].
Proof. repeat split; reflexivity. Qed.

Lemma log_events l :
  writes_of [EvLog l] = [] /\ posts_of [EvLog l] = [] /\ calls_of [EvLog l] = [].
Proof. repeat split; reflexivity. Qed.

(** The events of a turn: the announcement and the call, what the client
    emits, and what follows the call. *)
Lemma run_invariant_turn env st st' l rs fevs tail :
  trace st' = trace st ++ [EvLog l; EvCall rs] ++ fevs ++ tail ->
  writes_of fevs = [] -> calls_of fevs = [] ->
  Forall (well_formed_post env BATCH_SIZE) (posts_of fevs) ->
  length (posts_of fevs) <= 1 ->
  posts_of tail = [] -> calls_of tail = [] ->
  files st' = apply_writes (files st) (writes_of tail) ->
  totalUpdated st' = totalUpdated st + length (writes_of tail) ->
  map path (projects st') = map path (projects st) ->
  map folder (projects st') = map folder (projects st) ->
  Forall (fun w => In (fst w) (map path (projects st))) (writes_of tail) ->
  run_invariant env st st'.
Proof.
  intros Htr Hw Hc Hwf Hone Htp Htc Hf Hn Hp Hd Hin.
  exists ([EvLog l; EvCall rs] ++ fevs ++ tail).
  destruct (head_events l rs) as (Hhw & Hhp & Hhc).
  rewrite !writes_of_app, !posts_of_app, !calls_of_app, Hhw, Hhp, Hhc, Hw, Hc, Htp, Htc.
  cbn [app]. rewrite !app_nil_r.
  split; [exact Htr|]. split; [exact Hf|]. split; [exact Hn|].
  split; [exact Hp|]. split; [exact Hd|]. split; [exact Hin|].
  split; [exact Hwf|]. cbn [length]. lia.
Qed.

Lemma turn_state_invariant env i st :
  i <= length (projects st) -> run_invariant env st (turn_state env i st).
Proof.
  intros Hi. unfold turn_state.
  set (ps := projects st) in *.
  set (b := slice i (i + BATCH_SIZE) ps).
  set (plan := fetch_plan env (count_posts (trace st)) (map repository_of b)).
  destruct (fetch_plan_quiet env (count_posts (trace st)) (map repository_of b))
    as (Hw & Hc). fold plan in Hw, Hc.
  assert (Hlenb : length b <= BATCH_SIZE).
  { unfold b. rewrite slice_take_drop, length_take. lia. }
  assert (Hposts : Forall (well_formed_post env BATCH_SIZE) (posts_of (fst plan)) /\
                   length (posts_of (fst plan)) <= 1).
  { destruct (fetch_plan_posts env (count_posts (trace st)) (map repository_of b))
      as [Hnone|(r & Hone & Hwf)]; fold plan in Hnone || fold plan in Hone.
    - rewrite Hnone. split; [constructor|cbn; lia].
    - rewrite Hone. split; [|cbn; lia]. constructor; [|constructor].
      eapply well_formed_post_le; [|exact Hwf]. rewrite length_map. exact Hlenb. }
  destruct Hposts as (Hwf & Hone).
  assert (Hsplit : ps = take i ps ++ b ++ drop (i + BATCH_SIZE) ps) by apply slice_split.
  assert (Hin : forall x, In x (map path b) -> In x (map path ps)).
  { intros x Hx. rewrite Hsplit, !map_app, !in_app_iff. tauto. }
  destruct (snd plan) as [cs|e| |].
  - destruct (batch_events_quiet cs 0 b) as (Hbc & Hbp).
    destruct (batch_after_paths cs b 0) as (Hbpath & Hbfolder).
    eapply (run_invariant_turn env st _ _ _ (fst plan)
              (batch_events cs 0 b ++ sleep_events i (length ps)));
      cbn [files projects totalUpdated trace]; fold ps;
      rewrite ?writes_of_app, ?posts_of_app, ?calls_of_app, ?Hbc, ?Hbp,
        ?sleep_events_quiet_writes, ?sleep_events_quiet_posts, ?sleep_events_quiet_calls,
        ?app_nil_r;
      try reflexivity; try assumption.
    + rewrite !map_app, Hbpath, <- !map_app, <- Hsplit. reflexivity.
    + rewrite !map_app, Hbfolder, <- !map_app, <- Hsplit. reflexivity.
    + eapply Forall_impl; [apply batch_events_paths|]. intros w. apply Hin.
  - eapply (run_invariant_turn env st _ _ _ (fst plan)
              ([EvLog (LogBatchFailed e)] ++ sleep_events i (length ps)));
      unfold add_events; cbn [files projects totalUpdated trace]; fold ps;
      rewrite ?writes_of_app, ?posts_of_app, ?calls_of_app,
        ?sleep_events_quiet_writes, ?sleep_events_quiet_posts, ?sleep_events_quiet_calls;
      try reflexivity; try assumption.
    + cbn [writes_of omap list_omap app length]. rewrite Nat.add_0_r. reflexivity.
    + constructor.
  - eapply (run_invariant_turn env st _ _ _ (fst plan) []);
      unfold add_events; cbn [files projects totalUpdated trace]; fold ps;
      rewrite ?app_nil_r; try reflexivity; try assumption.
    + cbn. rewrite Nat.add_0_r. reflexivity.
    + constructor.
  - eapply (run_invariant_turn env st _ _ _ (fst plan) []);
      unfold add_events; cbn [files projects totalUpdated trace]; fold ps;
      rewrite ?app_nil_r; try reflexivity; try assumption.
    + cbn. rewrite Nat.add_0_r. reflexivity.
    + constructor.
Qed.

Lemma batch_turn_invariant env i st st' o :
  i <= length (projects st) ->
  batch_turn env i st = (st', o) ->
  run_invariant env st st'.
Proof.
  intros Hi Hturn.
  destruct (not_null_dec (slice i (i + BATCH_SIZE) (projects st))) as [Hnn|Hnull].
  - rewrite batch_turn_run in Hturn by assumption. injection Hturn as <- _.
    apply turn_state_invariant. exact Hi.
  - rewrite batch_turn_null in Hturn by exact Hnull. injection Hturn as <- _.
    apply run_invariant_log.
Qed.

Lemma main_loop_invariant env : forall fuel i st st' o,
  main_loop env fuel i st = (st', o) -> run_invariant env st st'.
Proof.
  induction fuel as [|fuel IH]; intros i st st' o Hrun;
    rewrite main_loop_unfold in Hrun;
    destruct (i <? length (projects st)) eqn:Hlt;
    try (injection Hrun as <- _; apply run_invariant_refl).
  apply Nat.ltb_lt in Hlt. unfold bind in Hrun.
  destruct (batch_turn env i st) as [sta oa] eqn:Hturn.
  assert (Ha : run_invariant env st sta)
    by (eapply batch_turn_invariant; [|exact Hturn]; lia).
  destruct oa as [[]|e|c|].
  - eapply run_invariant_trans; [exact Ha|]. eapply IH. exact Hrun.
  - injection Hrun as <- _. exact Ha.
  - injection Hrun as <- _. exact Ha.
  - injection Hrun as <- _. exact Ha.
Qed.

Lemma load_events_quiet env disk dir folders :
  writes_of (load_events env disk dir folders) = [] /\
  posts_of (load_events env disk dir folders) = [] /\
  calls_of (load_events env disk dir folders) = [].
Proof.
  induction folders as [|f rest (Hw & Hp & Hc)]; [repeat split; reflexivity|].
  rewrite load_events_cons. destruct (load_one env disk dir f); repeat split; assumption.
Qed.

(** The state a run ends in: either a fatal precondition failed and one line
    was logged, or the batch loop ran from the loaded descriptors and its
    outcome decides how [main] and the module body end. *)
Lemma script_cases env disk :
  let run := script env (initial_state disk) in
  (exists l, run = (add_events (initial_state disk) [EvLog l], Exit 1) /\
             (token_present env = false \/
              forall folders, scan env (projects_dir env) <> Ok folders)) \/
  (exists folders st1 o1,
     token_present env = true /\
     scan env (projects_dir env) = Ok folders /\
     let st0 :=
       mkState disk (loaded env disk (projects_dir env) (sort folders)) 0
         (EvLog (LogUpdating (length folders))
            :: load_events env disk (projects_dir env) (sort folders)) in
     main_loop env (length (projects st0)) 0 st0 = (st1, o1) /\
     run_invariant env st0 st1 /\
     run = match o1 with
           | Ok _ => (add_events st1 [EvLog (LogUpdated (totalUpdated st1))], Ok tt)
           | Throw e => (add_events st1 [EvLog (LogUncaught e)], Exit 1)
           | Exit c => (st1, Exit c)
           | OutOfFuel => (st1, OutOfFuel)
           end).
Proof.
  cbv zeta. unfold script. destruct (token_present env) eqn:Htok.
  - unfold try_catch. rewrite main_run.
    destruct (scan_outcome env (projects_dir env)) as [[folders Hscan]|Hscan];
      rewrite Hscan.
    + right. cbn [initial_state files trace app].
      destruct (main_loop env _ 0 _) as [st1 o1] eqn:Hloop.
      exists folders, st1, o1. split; [reflexivity|]. split; [reflexivity|].
      cbn [projects]. split; [exact Hloop|].
      split; [eapply main_loop_invariant; exact Hloop|].
      cbn [fst snd]. destruct o1 as [[]|e|c|]; reflexivity.
    + left. exists LogCouldNotReadDir. split; [reflexivity|].
      right. intros folders. discriminate.
  - left. exists LogTokenRequired. split; [reflexivity|]. left. reflexivity.
Qed.

Lemma writes_of_log_tail evs l : writes_of (evs ++ [EvLog l]) = writes_of evs.
Proof. rewrite writes_of_app. apply app_nil_r. Qed.

(** X10: whatever way a run ends, the disk it leaves is the initial disk
    with the logged writes applied in order, and the counter is the number
    of those writes; when the run goes to its end, its last line reports
    exactly the number of files written. *)
Theorem run_accounting env disk :
  let run := script env (initial_state disk) in
  files (fst run) = apply_writes disk (writes_of (trace (fst run))) /\
  totalUpdated (fst run) = length (writes_of (trace (fst run))) /\
  (snd run = Ok tt ->
   exists before,
     trace (fst run) = before ++ [EvLog (LogUpdated (length (writes_of before)))]).
Proof.
  intros run.
  destruct (script_cases env disk)
    as [(l & Hrun & _)|(folders & st1 & o1 & _ & _ & Hloop & Hinv & Hrun)];
    unfold run; rewrite Hrun.
  - cbn [fst snd]. repeat split; try reflexivity. discriminate.
  - destruct Hinv as (evs & Htr & Hf & Hn & _).
    cbn [files totalUpdated trace projects] in Htr, Hf, Hn.
    destruct (load_events_quiet env disk (projects_dir env) (sort folders)) as (Hlw & _).
    assert (Hw1 : writes_of (trace st1) = writes_of evs).
    { rewrite Htr.
      change (EvLog (LogUpdating (length folders))
                :: load_events env disk (projects_dir env) (sort folders))
        with ([EvLog (LogUpdating (length folders))]
                ++ load_events env disk (projects_dir env) (sort folders)).
      rewrite !writes_of_app, Hlw. reflexivity. }
    destruct o1 as [[]|e|c|]; cbn [fst snd add_events files totalUpdated trace];
      rewrite ?writes_of_log_tail, Hw1, Hf, Hn;
      (split; [reflexivity|]); (split; [reflexivity|]); try discriminate.
    intros _. exists (trace st1). rewrite Hw1. reflexivity.
Qed.

Lemma run_accounting_witness :
  let run := script example_env (initial_state two_disk) in
  snd run = Ok tt /\
  exists before,
    trace (fst run) = before ++ [EvLog (LogUpdated (length (writes_of before)))].
Proof.
  split; [vm_compute; reflexivity|].
  apply (run_accounting example_env two_disk). vm_compute. reflexivity.
Defined.

Lemma apply_writes_dom ws : forall (disk : gmap string string),
  Forall (fun w => is_Some (disk !! fst w)) ws ->
  dom (apply_writes disk ws) = dom disk.
Proof.
  unfold apply_writes. induction ws as [|[p c] ws IH]; intros disk Hall; [reflexivity|].
  inversion Hall as [|? ? Hp Hrest]; subst. cbn [foldl fst snd] in *.
  rewrite IH.
  - apply dom_insert_lookup_L. exact Hp.
  - eapply Forall_impl; [exact Hrest|]. intros [q d] Hq. cbn [fst] in *.
    rewrite lookup_insert. case_decide; [eauto|exact Hq].
Qed.

(** X11: a run writes descriptor files only: every file it writes is the
    [project.json] of a scanned folder and was on the disk before.  It
    creates no file and removes none: the disk has the same paths after the
    run as before. *)
Theorem run_writes_descriptor_files_only env disk :
  let run := script env (initial_state disk) in
  (forall p c, In (EvWrite p c) (trace (fst run)) ->
     exists folders f raw,
       scan env (projects_dir env) = Ok folders /\ In f folders /\
       p = json_path (projects_dir env) f /\ disk !! p = Some raw) /\
  dom (files (fst run)) = dom disk.
Proof.
  intros run.
  destruct (script_cases env disk)
    as [(l & Hrun & _)|(folders & st1 & o1 & _ & Hscan & Hloop & Hinv & Hrun)];
    unfold run; rewrite Hrun.
  - cbn [fst]. split; [|reflexivity].
    intros p c [H|[]]. discriminate H.
  - destruct Hinv as (evs & Htr & Hf & _ & _ & _ & Hpaths & _).
    cbn [files trace projects] in Htr, Hf, Hpaths.
    destruct (load_events_quiet env disk (projects_dir env) (sort folders)) as (Hlw & _).
    assert (Hknown : forall p, In p (map path (loaded env disk (projects_dir env) (sort folders))) ->
              exists f raw, In f folders /\ p = json_path (projects_dir env) f /\
                            disk !! p = Some raw).
    { intros p Hp. apply in_map_iff in Hp. destruct Hp as (q & <- & Hq).
      apply list_elem_of_In in Hq. unfold loaded in Hq.
      apply list_elem_of_omap in Hq. destruct Hq as (f & Hf' & Hone).
      destruct (load_one_folder _ _ _ _ _ Hone) as (_ & Hqp & raw & Hraw & _).
      exists f, raw. rewrite Hqp. split; [|split; [reflexivity|exact Hraw]].
      apply list_elem_of_In. rewrite <- (sort_perm folders). exact Hf'. }
    assert (Hw1 : writes_of (trace st1) = writes_of evs).
    { rewrite Htr.
      change (EvLog (LogUpdating (length folders))
                :: load_events env disk (projects_dir env) (sort folders))
        with ([EvLog (LogUpdating (length folders))]
                ++ load_events env disk (projects_dir env) (sort folders)).
      rewrite !writes_of_app, Hlw. reflexivity. }
    assert (Hfinal : writes_of (trace (fst
              match o1 with
              | Ok _ => (add_events st1 [EvLog (LogUpdated (totalUpdated st1))], Ok tt)
              | Throw e => (add_events st1 [EvLog (LogUncaught e)], Exit 1)
              | Exit c => (st1, Exit c)
              | OutOfFuel => (st1, OutOfFuel)
              end)) = writes_of evs /\
            files (fst
              match o1 with
              | Ok _ => (add_events st1 [EvLog (LogUpdated (totalUpdated st1))], Ok tt)
              | Throw e => (add_events st1 [EvLog (LogUncaught e)], Exit 1)
              | Exit c => (st1, Exit c)
              | OutOfFuel => (st1, OutOfFuel)
              end) = files st1).
    { destruct o1 as [[]|e|c|]; cbn [fst add_events files trace];
        rewrite ?writes_of_log_tail, Hw1; split; reflexivity. }
    destruct Hfinal as (Hwf & Hff). split.
    + intros p c Hin. apply In_write in Hin. rewrite Hwf in Hin.
      rewrite Forall_forall in Hpaths. apply list_elem_of_In in Hin.
      specialize (Hpaths _ Hin). cbn [fst] in Hpaths.
      destruct (Hknown p Hpaths) as (f & raw & Hfin & Hp & Hraw).
      exists folders, f, raw. auto.
    + rewrite Hff, Hf. apply apply_writes_dom.
      eapply Forall_impl; [exact Hpaths|]. intros [p c] Hp. cbn [fst] in *.
      destruct (Hknown p Hp) as (f & raw & _ & _ & Hraw). eauto.
Qed.



(** ** The pause between batches *)









(** ** Repositories the service does not resolve *)





(** ** The disk and the descriptors in memory *)





